(* ===== verification/_CoqProject ===== *)
-Q . S2P
Prelude.v
Sentence.v
Board.v
Render.v
AI.v
Bounds.v
Soundness.v
Moves.v
Output.v
Game.v
Findings.v
Play.v
