(* ===== verification/Prelude.v ===== *)
(** * A verification library for the CS50 Minesweeper agent (src/minesweeper.py)

    The program is one Python file with three classes:
    - [Minesweeper] (lines 8-87): the board.  It holds [height], [width], a
      set [mines] and a grid [board] of booleans.  Its constructor places
      mines by drawing random cells until enough distinct ones are drawn.
      [is_mine] reads the grid, [nearby_mines] counts the mines among the
      in-bounds neighbours of a cell, and [won] compares [mines_found] with
      [mines].
    - [Sentence] (lines 90-141): a logical statement "[count] of the cells
      in [cells] are mines".  It also keeps two sets, [mines] and [safes],
      that [mark_mine] and [mark_safe] fill when the sentence is
      conclusive.
    - [MinesweeperAI] (lines 144-396): the agent.  Its state is
      [moves_made], [mines], [safes] and the list [knowledge] of
      sentences.  [add_knowledge] folds one observation "cell is safe and
      has [count] mined neighbours" into the state, derives new sentences by
      subset resolution, and collects conclusive sentences into [mines] and
      [safes].  [make_safe_move] pops a known-safe cell.
      [make_random_move] compares the best sentence's mine ratio with a
      global baseline to choose where to guess.

    The components interact as follows.  A driver, which is not in the
    repository, reveals a cell on the board.  If the cell is safe, it calls
    [add_knowledge cell (nearby_mines cell)], then asks the agent for a
    safe move or a random move.  The board never sees the agent's state.
    The agent reaches the board only through the count the driver passes
    in.

    ** Files, in dependency order
    - [Prelude] (this file) holds the shared vocabulary:
      - cells as [Z * Z], board geometry ([in_bounds], [window],
        [neighbours], [all_cells]);
      - Python list operations: [py_get] (indexing with negative indices)
        and [remove_first] (Python's [list.remove]);
      - the notation scope [minesweeper_scope] and the hint database
        [minesweeper];
      - generic lemmas on set sizes and counting loops;
      - generic simulation lemmas ([nsteps_simulation], [sn_simulation]),
        termination by a measure ([sn_measure_inv]) and invariants of runs
        ([rtc_inv]).
    - [Sentence] (Module [Sentence]) models the class [Sentence],
      including its [__eq__].  [mark_cells_equiv] shows that the marking
      loop of [add_knowledge] equals its closed form.
    - [Board] (Module [Minesweeper]) models the class [Minesweeper]:
      - the grid as [list (list bool)];
      - the constructor's mine-placing loop, driven by an explicit list of
        random draws;
      - [is_mine];
      - [nearby_mines] as the source's double loop;
      - [won].
      Its theorems: the grid agrees with [mines]; the loop diverges when
      more mines are asked than there are cells, and can exit otherwise; a
      board without rows or columns raises [ValueError] for any non-zero
      request;
      [nearby_mines] counts the in-bounds mined neighbours.
    - [Render] (Module [Render]) models [Minesweeper.print] as the text it
      writes, with a flag for an [IndexError].  [print_roundtrip]: on every
      board the constructor builds, [print] does not raise, and reading
      its text back ([parse]) gives the grid.
    - [AI] (Module [MinesweeperAI]) models the agent's state,
      [mark_mine]/[mark_safe], and [add_knowledge] step by step, one
      definition per loop of the source, in the source's order.  Its
      theorems: sentences never mention probed cells ([fresh]); conclusive
      sentences are collected; the clean-up loop equals [filter] on lists
      without two adjacent empty sentences, and keeps an empty sentence
      exactly when there are two.
    - [Bounds] (Module [Bounds]): the state invariant [bounded], which says
      every cell the agent records is on its board, and its preservation by
      [add_knowledge]; every sentence has at most 8 cells.
    - [Soundness] (Module [Soundness]): the interface classes
      [MineOracle]/[MineOracleLaws] through which the agent sees a board,
      with [Minesweeper] as an instance.  The invariant [ai_sound M]
      (every sentence true of the mines [M], [mines] are mines, [safes] and
      [moves_made] are not) is kept by [add_knowledge].  So the agent's
      conclusions are entailed by its observations: they hold in every
      placement of mines consistent with them ([observations_entail]).
    - [Moves] (Module [Moves]) models [make_safe_move] and
      [make_random_move].  [set.pop()] is the class [SetPop] with laws
      [SetPopLaws]; [random.sample] returns the set it samples from
      ([SampleFrom]); uncaught exceptions are values of [PyError].
      [make_random_move_exceptions] names the cause of each exception;
      [best_sentence_first_min] characterises the sentence the ratio loop
      selects (the first one of least ratio below 100).
    - [Output] (Module [Output]) models the rest of the program's text
      output: [Sentence.__str__] for any iteration order of the cell set,
      with [str] of an int as Stdlib's decimal printer, and the [print]
      calls of [add_knowledge] and [make_random_move] as the lines they
      write.  [str_roundtrip]: the text reads back as a sentence equal
      under [__eq__].  [all_mines_found_needs_8]: the "All mines found!!"
      message tests a hard-coded 8, so on a board with fewer mines it is
      never printed.
    - [Game] (Module [Game]) models the driver from the spec: [step] is one
      turn, in which any lawful [set.pop()] order and any [random.sample]
      draw may be used.  [reachable_sound] and [safe_move_never_loses] hold in every
      reachable game.
    - [Findings] (Module [Findings]): concrete runs that exhibit where the
      code departs from the spec (duplicates, an empty sentence kept, no
      fixed point, and the exceptions of [make_random_move]).  They are
      evidence for the findings of the development, not general
      properties.
    - [Play] (Module [Play]): the rules of Minesweeper as an abstract
      transition system [astep] on revealed cells.  [step_refines] shows the
      driver refines it.  By simulation, every game terminates
      ([game_terminates]) and lasts at most [h * w] turns
      ([game_turns_bound]).

    ** Modelling choices
    - Python sets are stdpp [gset]s.  A Python list that is mutated while
      it is iterated is a Rocq list with an explicit index, which
      reproduces CPython's list-iterator semantics exactly.
    - Integers are unbounded Python ints, so they are modelled as [Z] and
      never wrap.  The float ratios of [make_random_move] are exact
      rationals [Q]; for the small numerators and denominators of a board,
      float division orders them as the rationals do.
    - Each [Sentence] object is referenced once from [knowledge] and copies
      its cell set on construction.  So a value model of the list is
      faithful: no two list entries alias each other.
    - Nondeterminism ([set.pop()], [random.sample], [random.randrange]) is
      an argument: a class instance, a chosen element of the sampled set, or
      an explicit list of draws.  Every theorem quantifies over it.
    - A Python set's iteration order depends on its hash table and
      insertion history, not on its value; where it shows (the text of
      [Sentence.__str__]) it is an argument, and the theorems hold for
      every order that lists the set's elements.

    ** Fuel and bounds
    - [MinesweeperAI.purge_loop]: fuel [length K], enough because each
      iteration advances the index or shortens the list
      ([purge_loop_fuel]).
    - [Moves.safe_move_loop]: fuel [S (size safes)], enough because each
      iteration removes an element from [safes] ([safe_move_loop_spec]).
    - [Minesweeper.place_mines] consumes a finite list of draws and ends in
      [OutOfDraws] when it runs out.  [init_terminates] gives draws that
      make the loop exit, and [place_mines_diverges] shows no draws do when
      the request does not fit.  [random.randrange] on an empty range is
      [RandrangeError] ([init_range_error]).
    - [Output.read_items], the reader of a set's text: fuel the length of
      the text, enough because each cell's text takes at least one
      character ([length_join_items]).

    ** Not modelled
    - The win condition of the driver ([won] on flagged mines): the driver
      model stops only on a mine, so it has every run of the real driver.
*)

From stdpp Require Export base gmap sets list.
From Stdlib Require Export ZArith.

(** Cells are pairs of Python ints [(row, col)]. *)
Abbreviation Cell := (Z * Z)%type.

Declare Scope minesweeper_scope.
Delimit Scope minesweeper_scope with ms.
(** Cardinality of a finite set, Python's [len(s)]. *)
Notation "⟪ S ⟫" := (size S) (at level 0, S at level 200, format "⟪ S ⟫") : minesweeper_scope.
Open Scope minesweeper_scope.
Set Warnings "-clear-no-such-hyp".


Create HintDb minesweeper.

(** ** Python list helpers *)

(** [l[i]] for a Python list: negative indices count from the end;
    [None] stands for [IndexError]. *)
Definition py_get {A} (l : list A) (i : Z) : option A :=
  if decide (0 <= i)%Z then l !! Z.to_nat i
  else if decide (- Z.of_nat (length l) <= i)%Z then l !! Z.to_nat (Z.of_nat (length l) + i)
  else None.

(** [l.remove(x)] where equality is the decidable predicate [p]: removes the
    first element satisfying [p]; [None] stands for [ValueError]. *)
Fixpoint remove_first {A} (p : A -> bool) (l : list A) : option (list A) :=
  match l with
  | [] => None
  | y :: ys => if p y then Some ys else (y ::.) <$> remove_first p ys
  end.

(** ** Generic lemmas *)

Lemma remove_first_length {A} (p : A -> bool) l l' :
  remove_first p l = Some l' -> S (length l') = length l.
Proof.
  revert l'; induction l as [|y ys IH]; intros l' H; simpl in H; [done|].
  destruct (p y); [by simplify_eq|].
  destruct (remove_first p ys) eqn:E; simplify_eq/=. by rewrite (IH _ eq_refl).
Qed.

Lemma remove_first_sublist {A} (p : A -> bool) l l' :
  remove_first p l = Some l' -> sublist l' l.
Proof.
  revert l'; induction l as [|y ys IH]; intros l' H; simpl in H; [done|].
  destruct (p y); simplify_eq.
  - by apply sublist_cons.
  - destruct (remove_first p ys) eqn:E; simplify_eq/=. by apply sublist_skip, IH.
Qed.

(** [list.remove] deletes the first entry satisfying [p]. *)
Lemma remove_first_delete {A} (p : A -> bool) l l' :
  remove_first p l = Some l' ->
  ∃ j y, l !! j = Some y ∧ p y = true ∧ l' = delete j l ∧
         ∀ k z, k < j -> l !! k = Some z -> p z = false.
Proof.
  revert l'; induction l as [|y ys IH]; intros l' H; simpl in H; [done|].
  destruct (p y) eqn:Hy.
  - simplify_eq. exists 0, y. split_and!; [done|done|done|]. intros k z Hk. lia.
  - destruct (remove_first p ys) as [ys'|] eqn:E; simplify_eq/=.
    destruct (IH ys' eq_refl) as (j & z & Hj & Hz & -> & Hfirst).
    exists (S j), z. split_and!; [done|done|done|].
    intros [|k] z' Hk Hk'; simplify_eq/=; [done|]. apply (Hfirst k); [lia|done].
Qed.

(** [list.remove] on an entry that no earlier entry matches. *)
Lemma remove_first_app {A} (p : A -> bool) P y R :
  Forall (fun z => p z = false) P -> p y = true -> remove_first p (P ++ y :: R) = Some (P ++ R).
Proof.
  intros HP Hy. induction HP as [|z P Hz HP IH]; simpl; [by rewrite Hy|].
  by rewrite Hz, IH.
Qed.

Lemma remove_first_Some {A} (p : A -> bool) l x :
  x ∈ l -> p x = true -> is_Some (remove_first p l).
Proof.
  induction l as [|y ys IH]; intros Hx Hp; [by apply not_elem_of_nil in Hx|]; simpl.
  destruct (p y) eqn:Hy; [by eexists|].
  apply elem_of_cons in Hx as [->|Hx]; [congruence|].
  destruct (IH Hx Hp) as [l' ->]. by eexists.
Qed.

Lemma Forall_sublist_l {A} (P : A -> Prop) l l' :
  sublist l' l -> Forall P l -> Forall P l'.
Proof.
  rewrite !Forall_forall. intros Hs HP x Hx. apply HP. by eapply elem_of_sublist.
Qed.

(** The mines counted in a set minus a mine-free set are those of the set. *)
Lemma size_inter_difference_disjoint (N S M : gset Cell) :
  S ## M -> size ((N ∖ S) ∩ M) = size (N ∩ M).
Proof. intros HS. f_equal. set_solver. Qed.

(** Counting mines is additive along a subset. *)
Lemma size_inter_difference_subset (X Y M : gset Cell) :
  X ⊆ Y -> size ((Y ∖ X) ∩ M) = size (Y ∩ M) - size (X ∩ M).
Proof.
  intros Hsub. rewrite <- size_difference by set_solver. f_equal. set_solver.
Qed.

Lemma size_inter_le_l (X M : gset Cell) : size (X ∩ M) <= size X.
Proof. apply subseteq_size. set_solver. Qed.

Lemma size_inter_full (X M : gset Cell) :
  size (X ∩ M) = size X -> X ⊆ M.
Proof.
  intros Hs x Hx. destruct (decide (x ∈ M)) as [|Hn]; [done|].
  assert (X ∩ M ⊂ X) as Hlt by set_solver.
  apply subset_size in Hlt. lia.
Qed.

Lemma size_inter_zero (X M : gset Cell) :
  size (X ∩ M) = 0 -> X ## M.
Proof. intros Hs%size_empty_inv. set_solver. Qed.

#[export] Hint Resolve size_inter_le_l size_inter_full size_inter_zero : minesweeper.

(** ** Board geometry shared by the board and the agent *)

(** [0 <= i < height and 0 <= j < width]. *)
Definition in_bounds (h w : Z) (c : Cell) : Prop := (0 <= c.1 < h ∧ 0 <= c.2 < w)%Z.
#[export] Instance in_bounds_dec h w c : Decision (in_bounds h w c).
Proof. unfold in_bounds. apply _. Defined.

(** The 3x3 window around [c], row by row, as the loops
    [for i in range(c[0]-1, c[0]+2): for j in range(c[1]-1, c[1]+2)] visit it. *)
Definition window (c : Cell) : list Cell :=
  list_prod (seqZ (c.1 - 1) 3) (seqZ (c.2 - 1) 3).

(** The in-bounds neighbours of [c], [c] itself excluded. *)
Definition neighbours (h w : Z) (c : Cell) : gset Cell :=
  list_to_set (filter (fun d => d ≠ c ∧ in_bounds h w d) (window c)).

Lemma NoDup_list_prod {A B} (l1 : list A) (l2 : list B) :
  NoDup l1 -> NoDup l2 -> NoDup (list_prod l1 l2).
Proof.
  intros H1 H2. induction H1 as [|a l1 Ha H1 IH]; simpl; [constructor|].
  apply NoDup_app. split_and!; [by apply NoDup_fmap_2; [intros ?? [=]|]| |done].
  intros [x y] Hx Hy. apply list_elem_of_fmap in Hx as (? & [= -> ->] & _).
  apply list_elem_of_In, in_prod_iff in Hy as [Hy _]. by apply Ha, list_elem_of_In.
Qed.

Lemma NoDup_window c : NoDup (window c).
Proof. apply NoDup_list_prod; apply NoDup_seqZ. Qed.

Lemma elem_of_window c d :
  d ∈ window c <-> (c.1 - 1 <= d.1 <= c.1 + 1 ∧ c.2 - 1 <= d.2 <= c.2 + 1)%Z.
Proof.
  destruct d as [x y]. unfold window.
  rewrite list_elem_of_In, in_prod_iff, <- !list_elem_of_In, !elem_of_seqZ. simpl. lia.
Qed.

Lemma elem_of_neighbours h w c d :
  d ∈ neighbours h w c <-> d ∈ window c ∧ d ≠ c ∧ in_bounds h w d.
Proof. unfold neighbours. rewrite elem_of_list_to_set, list_elem_of_filter. tauto. Qed.

(** All cells of the board, row by row, as the loops
    [for i in range(height): for j in range(width)] visit them. *)
Definition all_cells (h w : Z) : list Cell := list_prod (seqZ 0 h) (seqZ 0 w).

Lemma all_cells_spec h w d : d ∈ all_cells h w <-> in_bounds h w d.
Proof.
  destruct d as [x y]. unfold all_cells, in_bounds.
  rewrite list_elem_of_In, in_prod_iff, <- !list_elem_of_In, !elem_of_seqZ. simpl. lia.
Qed.

Lemma length_all_cells h w : length (all_cells h w) = Z.to_nat h * Z.to_nat w.
Proof. unfold all_cells. by rewrite length_prod, !length_seqZ. Qed.

Lemma NoDup_all_cells h w : NoDup (all_cells h w).
Proof. apply NoDup_list_prod; apply NoDup_seqZ. Qed.

(** A counting loop over a duplicate-free list counts the elements that pass
    its test. *)
Lemma foldl_count_filter {A} `{Countable A} (P : A -> Prop) `{!∀ x, Decision (P x)}
    (f : nat -> A -> nat) (l : list A) n :
  NoDup l -> (∀ x k, x ∈ l -> f k x = if decide (P x) then S k else k) ->
  foldl f n l = n + size (list_to_set (C:=gset A) (filter P l)).
Proof.
  intros Hnd. revert n. induction Hnd as [|x l Hx Hnd IH]; intros n Hf; cbn [foldl].
  { rewrite filter_nil, list_to_set_nil, size_empty. lia. }
  rewrite Hf by set_solver. rewrite IH by set_solver.
  rewrite filter_cons. case_decide; rewrite ?list_to_set_cons; [|lia].
  rewrite size_union, size_singleton; [lia|].
  intros y ->%elem_of_singleton Hy.
  apply elem_of_list_to_set, list_elem_of_filter in Hy as [_ Hy]. done.
Qed.

(** Closes a decidable proposition about concrete data by evaluating its
    decision procedure. *)
Ltac decide_prop := apply (bool_decide_unpack _); vm_compute; exact I.

(** A loop that adds to a set the elements of a list passing a test builds
    the set of those elements. *)
Lemma foldl_insert_filter (P : Cell -> Prop) `{!∀ x, Decision (P x)} (l : list Cell) (X : gset Cell) :
  foldl (fun acc c => if decide (P c) then {[c]} ∪ acc else acc) X l = X ∪ list_to_set (filter P l).
Proof.
  revert X. induction l as [|c l IH]; intros X; cbn [foldl].
  - rewrite filter_nil. set_solver.
  - rewrite IH, filter_cons. case_decide; rewrite ?list_to_set_cons; [|done].
    match goal with |- context [list_to_set ?L] => generalize (list_to_set (C:=gset Cell) L) end.
    intros Y. set_solver.
Qed.

(** ** Simulation of one transition system by another

    A concrete relation [step] and an abstract relation [astep], related by
    an abstraction function [abs] on states satisfying [inv].  When every
    concrete step of an [inv] state maps to an abstract step, concrete runs
    map to abstract runs of the same length, and strong normalisation
    (every run is finite) carries over from the abstract system. *)
Section Simulation.
Context {A B : Type} (step : relation A) (astep : relation B) (inv : A -> Prop) (abs : A -> B).
Hypothesis inv_step : ∀ a a', inv a -> step a a' -> inv a'.
Hypothesis simulation : ∀ a a', inv a -> step a a' -> astep (abs a) (abs a').

Lemma nsteps_simulation n a a' : inv a -> nsteps step n a a' -> nsteps astep n (abs a) (abs a').
Proof.
  intros Hinv Hs. induction Hs as [a|n a a1 a' Hstep _ IH]; [constructor|].
  econstructor; [by apply simulation|]. by apply IH, (inv_step a).
Qed.

Lemma sn_simulation a : inv a -> sn astep (abs a) -> sn step a.
Proof.
  intros Hinv Hsn. remember (abs a) as b eqn:Hb. revert a Hinv Hb.
  induction Hsn as [b _ IH]; intros a Hinv ->.
  constructor. intros a' Hstep. eapply IH; [by apply simulation| |done]. by apply (inv_step a).
Qed.
End Simulation.

(** A relation whose steps keep an invariant and decrease a natural-number
    measure is strongly normalising from every state of the invariant. *)
Lemma sn_measure_inv {A} (R : relation A) (I : A -> Prop) (m : A -> nat) :
  (∀ x y, I x -> R x y -> I y ∧ m y < m x) -> ∀ x, I x -> sn R x.
Proof.
  intros Hdec. assert (Hn : ∀ n x, I x -> m x < n -> sn R x).
  { induction n as [|n IH]; intros x HI Hx; [lia|].
    constructor. intros y Hxy. destruct (Hdec x y HI Hxy). apply IH; [done|lia]. }
  intros x HI. apply (Hn (S (m x))); [done|lia].
Qed.

(** An invariant of every step holds in every state a run reaches. *)
Lemma rtc_inv {A} (R : relation A) (I : A -> Prop) :
  (∀ x y, I x -> R x y -> I y) -> ∀ x y, I x -> rtc R x y -> I y.
Proof. intros Hstep x y Hx Hr. induction Hr as [|x x1 y Hxy _ IH]; [done|]. by apply IH, (Hstep x). Qed.
