(* ===== verification/Sentence.v ===== *)
(** The class [Sentence] of src/minesweeper.py (lines 90-141): a set of
    cells with a mine count, and the per-sentence sets [mines] and [safes]
    that [mark_mine] and [mark_safe] fill.  Also the per-sentence marking
    loop of [add_knowledge] (lines 277-280), with its closed form, and the
    truth of a sentence with respect to a set of planted mines. *)

From S2P Require Import Prelude.
Open Scope minesweeper_scope.
Set Warnings "-clear-no-such-hyp".

Module Sentence.

(** The object's four attributes, as [__init__] creates them. *)
Record Sentence := mkSentence {
  cells : gset Cell;
  count : Z;
  mines : gset Cell;
  safes : gset Cell
}.

#[global] Instance Sentence_eq_dec : EqDecision Sentence.
Proof. solve_decision. Defined.

(** [Sentence(cells, count)]: [set(cells)] copies the set. *)
Definition init (cs : gset Cell) (n : Z) : Sentence :=
  {| cells := cs; count := n; mines := ∅; safes := ∅ |}.

(** [__eq__]: equal cell sets and equal counts; [mines]/[safes] are ignored. *)
Definition eqb (s t : Sentence) : bool :=
  bool_decide (cells s = cells t ∧ count s = count t).

Definition known_mines (s : Sentence) : gset Cell := mines s.
Definition known_safes (s : Sentence) : gset Cell := safes s.
Definition print_cells (s : Sentence) : gset Cell := cells s.
Definition print_count (s : Sentence) : Z := count s.

(** [mark_mine]: adds [cell] to [self.mines] when [len(self.cells) == self.count],
    whether or not [cell] is one of [self.cells]. *)
Definition mark_mine (s : Sentence) (c : Cell) : Sentence :=
  if decide (Z.of_nat ⟪cells s⟫ = count s)
  then {| cells := cells s; count := count s; mines := {[c]} ∪ mines s; safes := safes s |}
  else s.

(** [mark_safe]: adds [cell] to [self.safes] when [self.count == 0]. *)
Definition mark_safe (s : Sentence) (c : Cell) : Sentence :=
  if decide (count s = 0%Z)
  then {| cells := cells s; count := count s; mines := mines s; safes := {[c]} ∪ safes s |}
  else s.

(** Lines 278-280: [for element in statement.cells: statement.mark_mine(element);
    statement.mark_safe(element)]. *)
Definition mark_cells (s : Sentence) : Sentence :=
  foldl (fun s' e => mark_safe (mark_mine s' e) e) s (elements (cells s)).

(** The closed form of [mark_cells]: a conclusive sentence records all its cells. *)
Definition mark_cells_spec (s : Sentence) : Sentence :=
  {| cells := cells s; count := count s;
     mines := if decide (Z.of_nat ⟪cells s⟫ = count s) then cells s ∪ mines s else mines s;
     safes := if decide (count s = 0%Z) then cells s ∪ safes s else safes s |}.

(** ** Truth of a sentence on a board whose planted mines are [M] *)

(** The sentence's statement holds: exactly [count] of [cells] are in [M]. *)
Definition holds (M : gset Cell) (s : Sentence) : Prop :=
  Z.of_nat ⟪cells s ∩ M⟫ = count s.

(** The statement holds and the recorded conclusions are true. *)
Definition sound (M : gset Cell) (s : Sentence) : Prop :=
  holds M s ∧ mines s ⊆ M ∧ safes s ## M.

#[global] Instance holds_dec M s : Decision (holds M s).
Proof. unfold holds. apply _. Defined.
#[global] Instance sound_dec M s : Decision (sound M s).
Proof. unfold sound. apply _. Defined.

(** ** Lemmas *)

Lemma eqb_true s t : eqb s t = true <-> cells s = cells t ∧ count s = count t.
Proof. unfold eqb. by rewrite bool_decide_eq_true. Qed.

Lemma eqb_refl s : eqb s s = true.
Proof. by apply eqb_true. Qed.

Lemma mark_mine_cells s c : cells (mark_mine s c) = cells s ∧ count (mark_mine s c) = count s.
Proof. unfold mark_mine. by case_decide. Qed.

Lemma mark_safe_cells s c : cells (mark_safe s c) = cells s ∧ count (mark_safe s c) = count s.
Proof. unfold mark_safe. by case_decide. Qed.

Lemma holds_count_bounds M s : holds M s -> (0 <= count s <= Z.of_nat ⟪cells s⟫)%Z.
Proof. unfold holds. intros <-. pose proof (size_inter_le_l (cells s) M). lia. Qed.

(** A sentence whose count equals its size lies inside [M]; one whose count is
    0 avoids [M]. *)
Lemma holds_full M s : holds M s -> Z.of_nat ⟪cells s⟫ = count s -> cells s ⊆ M.
Proof. unfold holds. intros H1 H2. apply size_inter_full. lia. Qed.

Lemma holds_zero M s : holds M s -> count s = 0%Z -> cells s ## M.
Proof. unfold holds. intros H1 H2. apply size_inter_zero. lia. Qed.

Lemma mark_mine_sound M s c :
  sound M s -> c ∈ cells s ∨ c ∈ M -> sound M (mark_mine s c).
Proof.
  intros (Hh & Hm & Hs) Hc. unfold mark_mine. case_decide as Heq; [|done].
  pose proof (holds_full M s Hh Heq). split_and!; simpl; [done|set_solver|done].
Qed.

Lemma mark_safe_sound M s c :
  sound M s -> c ∈ cells s ∨ c ∉ M -> sound M (mark_safe s c).
Proof.
  intros (Hh & Hm & Hs) Hc. unfold mark_safe. case_decide as Heq; [|done].
  pose proof (holds_zero M s Hh Heq). split_and!; simpl; [done|done|set_solver].
Qed.

#[global] Hint Resolve mark_mine_sound mark_safe_sound holds_count_bounds : minesweeper.

(** The marking step over a list [l] of cells, from [s], is the closed form
    restricted to [l]. *)
Lemma mark_cells_foldl s l :
  foldl (fun s' e => mark_safe (mark_mine s' e) e) s l =
  {| cells := cells s; count := count s;
     mines := if decide (Z.of_nat ⟪cells s⟫ = count s) then list_to_set l ∪ mines s else mines s;
     safes := if decide (count s = 0%Z) then list_to_set l ∪ safes s else safes s |}.
Proof.
  revert s; induction l as [|e l IH]; intros s; simpl.
  - destruct s; simpl. f_equal; case_decide; set_solver.
  - rewrite IH. unfold mark_safe, mark_mine.
    destruct s as [cs n ms ss]; simpl.
    repeat (case_decide; simpl); f_equal; set_solver.
Qed.

(** C24: the per-element marking loop of [add_knowledge] (lines 278-280) is
    equivalent to its closed form: a sentence whose count equals its size
    adds all its cells to [mines], one whose count is 0 adds them to [safes],
    and nothing else changes. *)
Theorem mark_cells_equiv s : mark_cells s = mark_cells_spec s.
Proof.
  unfold mark_cells, mark_cells_spec. rewrite mark_cells_foldl.
  by rewrite list_to_set_elements_L.
Qed.

Lemma mark_cells_sound M s : sound M s -> sound M (mark_cells s).
Proof.
  intros Hs. rewrite mark_cells_equiv. destruct Hs as (Hh & Hm & Hsf).
  unfold mark_cells_spec. split_and!; simpl; [done| |];
    case_decide as Hc; try done.
  - pose proof (holds_full M s Hh Hc). set_solver.
  - pose proof (holds_zero M s Hh Hc). set_solver.
Qed.

#[global] Hint Resolve mark_cells_sound : minesweeper.

End Sentence.
