(* ===== verification/Board.v ===== *)
(** The class [Minesweeper] of src/minesweeper.py (lines 8-87): the board.
    Its state is [height], [width], the set [mines], the grid [board] of
    booleans and [mines_found].  The constructor's [while] loop consumes
    random draws [(randrange(height), randrange(width))]; here they are an
    explicit list.  The loop ends in a [Placing]: [Placed] when it exits,
    [RandrangeError] when [randrange] is called on an empty range, and
    [OutOfDraws] when the list runs out first.  [nearby_mines] is the source's
    double loop over the 3x3 window.  The theorems:
    - the grid and the set of mines always agree;
    - the placing loop can never exit when more mines are requested than the
      board has cells;
    - a board without rows or columns raises [ValueError] unless no mine is
      requested;
    - some sequence of draws makes the loop exit whenever the request fits;
    - [nearby_mines] counts the in-bounds neighbours that are mines, which is
      at most 8. *)

From S2P Require Import Prelude.
Open Scope minesweeper_scope.
Set Warnings "-clear-no-such-hyp".

Module Minesweeper.

Record Minesweeper := mkMinesweeper {
  height : Z;
  width : Z;
  mines : gset Cell;
  board : list (list bool);
  mines_found : gset Cell
}.

(** Lines 21-26: [height] rows of [width] [False]s ([range] of a negative
    number is empty). *)
Definition empty_board (h w : Z) : list (list bool) :=
  replicate (Z.to_nat h) (replicate (Z.to_nat w) false).

(** [self.board[i][j]]; [None] is an [IndexError]. *)
Definition board_get (b : list (list bool)) (c : Cell) : option bool :=
  py_get b c.1 ≫= fun row => py_get row c.2.

(** [self.board[i][j] = True], for the non-negative indices [randrange] draws. *)
Definition board_set (b : list (list bool)) (c : Cell) : list (list bool) :=
  alter (fun row => <[Z.to_nat c.2 := true]> row) (Z.to_nat c.1) b.

(** One iteration of the loop body, lines 30-34, for the draw [(i, j)]. *)
Definition place_step (g : Minesweeper) (d : Cell) : Minesweeper :=
  match board_get (board g) d with
  | Some false =>
      {| height := height g; width := width g; mines := {[d]} ∪ mines g;
         board := board_set (board g) d; mines_found := mines_found g |}
  | _ => g
  end.

(** How the placing loop ends: it exits with the board; [random.randrange]
    raises [ValueError] on an empty range ([randrange(height)] with
    [height <= 0], or [randrange(width)] with [width <= 0]); or the model's
    finite list of draws runs out while the loop is still running. *)
Inductive Placing :=
  | Placed (g : Minesweeper)
  | RandrangeError
  | OutOfDraws.

(** Lines 29-34: [while len(self.mines) != mines], one draw per iteration.
    The draws are only taken when the body runs, so an empty range raises
    only when the loop has not yet exited. *)
Fixpoint place_mines (n : Z) (draws : list Cell) (g : Minesweeper) : Placing :=
  if decide (Z.of_nat ⟪mines g⟫ = n) then Placed g
  else if decide (height g <= 0 ∨ width g <= 0)%Z then RandrangeError
  else match draws with
       | [] => OutOfDraws
       | d :: ds => place_mines n ds (place_step g d)
       end.

(** [__init__(height, width, mines)], lines 13-37. *)
Definition init (h w n : Z) (draws : list Cell) : Placing :=
  place_mines n draws {| height := h; width := w; mines := ∅;
                         board := empty_board h w; mines_found := ∅ |}.

(** [is_mine], lines 54-56. *)
Definition is_mine (g : Minesweeper) (c : Cell) : option bool := board_get (board g) c.

(** [nearby_mines], lines 58-81. *)
Definition nearby_mines (g : Minesweeper) (c : Cell) : nat :=
  foldl (fun count d =>
           if decide (d = c) then count
           else if decide (in_bounds (height g) (width g) d) then
             match board_get (board g) d with Some true => S count | _ => count end
           else count)
        0 (window c).

(** [won], lines 83-87. *)
Definition won (g : Minesweeper) : bool := bool_decide (mines_found g = mines g).

(** A draw of [(randrange(height), randrange(width))]. *)
Definition valid_draw (g : Minesweeper) (d : Cell) : Prop := in_bounds (height g) (width g) d.

(** The board invariant: the grid agrees with [mines] on every in-bounds
    cell, and every mine is in bounds. *)
Definition wf (g : Minesweeper) : Prop :=
  (∀ d, in_bounds (height g) (width g) d -> board_get (board g) d = Some (bool_decide (d ∈ mines g))) ∧
  (∀ d, d ∈ mines g -> in_bounds (height g) (width g) d).

(** ** Lemmas *)

(** The invariant quantifies over the finitely many cells of the board. *)
Lemma wf_alt g :
  wf g <-> Forall (fun d => board_get (board g) d = Some (bool_decide (d ∈ mines g)))
                  (all_cells (height g) (width g)) ∧
           set_Forall (in_bounds (height g) (width g)) (mines g).
Proof.
  unfold wf. rewrite Forall_forall. setoid_rewrite all_cells_spec. done.
Qed.

#[global] Instance wf_dec g : Decision (wf g).
Proof.
  destruct (decide (Forall (fun d => board_get (board g) d = Some (bool_decide (d ∈ mines g)))
                  (all_cells (height g) (width g)) ∧
           set_Forall (in_bounds (height g) (width g)) (mines g))) as [H|H];
    [left|right]; by rewrite wf_alt.
Defined.

Lemma py_get_nonneg {A} (l : list A) i : (0 <= i)%Z -> py_get l i = l !! Z.to_nat i.
Proof. intros Hi. unfold py_get. by case_decide. Qed.

Lemma board_get_in {b : list (list bool)} {h w : Z} d :
  in_bounds h w d -> board_get b d = b !! Z.to_nat d.1 ≫= fun row => row !! Z.to_nat d.2.
Proof.
  intros [[??] [??]]. unfold board_get. rewrite py_get_nonneg by lia.
  destruct (b !! _); simpl; [|done]. by rewrite py_get_nonneg by lia.
Qed.

Lemma empty_board_wf h w draws :
  wf {| height := h; width := w; mines := ∅; board := empty_board h w; mines_found := draws |}.
Proof.
  split; simpl; [|set_solver]. intros d Hd. rewrite (board_get_in d Hd).
  destruct Hd as [[??] [??]]. unfold empty_board.
  rewrite lookup_replicate_2 by lia; simpl. rewrite lookup_replicate_2 by lia.
  rewrite bool_decide_false; set_solver.
Qed.

Lemma place_step_mines g d :
  wf g -> valid_draw g d -> mines (place_step g d) = {[d]} ∪ mines g.
Proof.
  intros [Hb _] Hd. unfold place_step. specialize (Hb d Hd).
  rewrite Hb. case_bool_decide; simpl; set_solver.
Qed.

Lemma place_step_dims g d :
  height (place_step g d) = height g ∧ width (place_step g d) = width g.
Proof. unfold place_step. by repeat case_match. Qed.

Lemma place_step_wf g d : wf g -> valid_draw g d -> wf (place_step g d).
Proof.
  intros Hwf Hd. pose proof (place_step_mines g d Hwf Hd) as Hm.
  destruct (place_step_dims g d) as [Hh Hw]. destruct Hwf as [Hb Hin].
  unfold place_step in *. specialize (Hb d Hd) as Hbd. rewrite Hbd in Hm |- *.
  case_bool_decide as Hdm; [by split|]. split; simpl in *; [|set_solver].
  intros e He. rewrite (board_get_in e He). unfold board_set.
  pose proof (Hb e He) as Hbe. rewrite (board_get_in e He) in Hbe.
  rewrite (board_get_in d Hd) in Hbd. destruct Hd as [[??] [??]], He as [[??] [??]].
  destruct (decide (Z.to_nat e.1 = Z.to_nat d.1)) as [Hi|Hi].
  - rewrite Hi, list_lookup_alter. rewrite Hi in Hbe.
    destruct (board g !! Z.to_nat d.1) as [row|] eqn:Er; simpl in *; [|done].
    rewrite decide_True by done; simpl.
    destruct (decide (Z.to_nat e.2 = Z.to_nat d.2)) as [Hj|Hj].
    + rewrite Hj, list_lookup_insert_eq; [|by eapply lookup_lt_Some].
      assert (e = d) as -> by (destruct e, d; simpl in *; f_equal; lia).
      rewrite bool_decide_true; set_solver.
    + rewrite list_lookup_insert_ne by done. rewrite Hbe.
      f_equal. apply bool_decide_ext. assert (e ≠ d) by (intros ->; done). set_solver.
  - rewrite list_lookup_alter_ne by done. rewrite Hbe.
    f_equal. apply bool_decide_ext. assert (e ≠ d) by (intros ->; done). set_solver.
Qed.

#[global] Hint Resolve place_step_wf empty_board_wf : minesweeper.

Lemma place_mines_wf n draws g g' :
  wf g -> Forall (valid_draw g) draws -> place_mines n draws g = Placed g' ->
  wf g' ∧ Z.of_nat ⟪mines g'⟫ = n ∧ height g' = height g ∧ width g' = width g.
Proof.
  revert g. induction draws as [|d ds IH]; intros g Hwf Hd Hp; simpl in Hp;
    repeat case_decide; simplify_eq; try done.
  apply Forall_cons in Hd as [Hd Hds].
  destruct (place_step_dims g d) as [Hh Hw].
  destruct (IH (place_step g d)) as (? & ? & -> & ->); auto with minesweeper.
  eapply Forall_impl; [done|]. intros x. by unfold valid_draw; rewrite Hh, Hw.
Qed.

(** The mines fit on the board. *)
Lemma mines_size_le g : wf g -> ⟪mines g⟫ <= Z.to_nat (height g) * Z.to_nat (width g).
Proof.
  intros [_ Hin]. rewrite <- length_all_cells.
  rewrite <- (size_list_to_set (C:=gset Cell)) by (apply NoDup_list_prod; apply NoDup_seqZ).
  apply subseteq_size. intros d Hd. apply elem_of_list_to_set, all_cells_spec. auto.
Qed.

Lemma size_window_minus c : ⟪list_to_set (C:=gset Cell) (window c) ∖ {[c]}⟫ = 8.
Proof.
  rewrite size_difference, size_singleton.
  - rewrite size_list_to_set by apply NoDup_window. unfold window.
    by rewrite length_prod, !length_seqZ.
  - intros x ->%elem_of_singleton. apply elem_of_list_to_set, elem_of_window. lia.
Qed.

Lemma size_neighbours_le h w c : ⟪neighbours h w c⟫ <= 8.
Proof.
  rewrite <- (size_window_minus c). apply subseteq_size. intros x.
  rewrite elem_of_neighbours, elem_of_difference, elem_of_list_to_set, elem_of_singleton.
  tauto.
Qed.

Lemma size_union_singleton_le (d : Cell) (X : gset Cell) : ⟪{[d]} ∪ X⟫ <= S ⟪X⟫.
Proof.
  rewrite size_union_alt, size_singleton.
  pose proof (subseteq_size (X ∖ {[d]}) X ltac:(set_solver)). lia.
Qed.

(** [nearby_mines] counts the mined in-bounds neighbours. *)
Lemma nearby_mines_count g c :
  wf g -> nearby_mines g c = ⟪neighbours (height g) (width g) c ∩ mines g⟫.
Proof.
  intros Hwf. unfold nearby_mines.
  rewrite (foldl_count_filter (fun d => (d ≠ c ∧ in_bounds (height g) (width g) d) ∧ d ∈ mines g));
    [|apply NoDup_window|].
  - rewrite Nat.add_0_l. f_equal. apply set_eq. intros x.
    rewrite elem_of_intersection, elem_of_neighbours, elem_of_list_to_set, list_elem_of_filter.
    tauto.
  - intros x k _. destruct (decide (x = c)) as [|Hxc]; [rewrite decide_False; tauto|].
    destruct (decide (in_bounds _ _ x)) as [Hb|Hb]; [|rewrite decide_False; tauto].
    rewrite (proj1 Hwf x Hb). case_bool_decide; [rewrite decide_True|rewrite decide_False]; tauto.
Qed.

(** C25: [nearby_mines] is the number of planted mines among the in-bounds
    neighbours of the cell (the cell itself excluded), on any board whose
    grid agrees with its set of mines. *)
Theorem nearby_mines_spec g c :
  wf g -> nearby_mines g c = ⟪neighbours (height g) (width g) c ∩ mines g⟫.
Proof. apply nearby_mines_count. Qed.

(** C26: [nearby_mines] never exceeds 8 on a well-formed board. *)
Corollary nearby_mines_le_8 g c : wf g -> nearby_mines g c <= 8.
Proof.
  intros Hwf. rewrite nearby_mines_count by done.
  etrans; [apply size_inter_le_l|apply size_neighbours_le].
Qed.

(** C27: every board the constructor builds satisfies the grid invariant and
    holds exactly the requested number of mines, all in bounds. *)
Theorem init_wf h w n draws g :
  Forall (in_bounds h w) draws -> init h w n draws = Placed g ->
  wf g ∧ Z.of_nat ⟪mines g⟫ = n ∧ height g = h ∧ width g = w.
Proof. intros Hd Hi. by eapply place_mines_wf in Hi; [|apply empty_board_wf|]. Qed.

(** C28: when more mines are requested than the board has cells (or a negative
    number), the [while] loop of [__init__] never exits, whatever the draws:
    on a board with rows and columns it runs past every draw, and on an empty
    one [randrange] raises [ValueError]. *)
Theorem place_mines_diverges n draws g :
  wf g -> Forall (valid_draw g) draws ->
  (n < 0 ∨ Z.of_nat (Z.to_nat (height g) * Z.to_nat (width g)) < n)%Z ->
  place_mines n draws g =
    if decide (0 < height g ∧ 0 < width g)%Z then OutOfDraws else RandrangeError.
Proof.
  revert g. induction draws as [|d ds IH]; intros g Hwf Hd Hn; simpl;
    pose proof (mines_size_le g Hwf); rewrite decide_False by lia;
    (case_decide; [by rewrite decide_False by lia|rewrite decide_True by lia]); [done|].
  apply Forall_cons in Hd as [Hd Hds]. destruct (place_step_dims g d) as [Hh Hw].
  rewrite IH, Hh, Hw; [by rewrite decide_True by lia|auto with minesweeper| |by rewrite Hh, Hw].
  eapply Forall_impl; [done|]. intros x. by unfold valid_draw; rewrite Hh, Hw.
Qed.

(** C30: [Minesweeper(height, width, mines)] with no rows or no columns and a
    non-zero [mines] raises [ValueError] from [random.randrange], whatever the
    draws would have been; with [mines = 0] the loop body never runs. *)
Theorem init_range_error h w n draws :
  (h <= 0 ∨ w <= 0)%Z ->
  (init h w n draws = RandrangeError <-> n ≠ 0%Z).
Proof.
  intros Hhw. unfold init.
  destruct draws; cbn [place_mines mines height width]; rewrite size_empty;
    (destruct (decide (Z.of_nat 0 = n)); [split; [done|intros; exfalso; lia]|]);
    rewrite decide_True by done; (split; [intros _; lia|done]).
Qed.

Lemma place_mines_exits n draws g :
  wf g -> Forall (valid_draw g) draws ->
  (Z.of_nat ⟪mines g⟫ <= n <= Z.of_nat ⟪mines g ∪ list_to_set draws⟫)%Z ->
  ∃ g', place_mines n draws g = Placed g'.
Proof.
  revert g. induction draws as [|d ds IH]; intros g Hwf Hd Hn; simpl.
  - rewrite decide_True; [by eexists|]. rewrite list_to_set_nil, union_empty_r_L in Hn. lia.
  - case_decide; [by eexists|]. apply Forall_cons in Hd as [Hd Hds].
    rewrite decide_False by (destruct Hd as [[??] [??]]; lia).
    destruct (place_step_dims g d) as [Hh Hw].
    pose proof (place_step_mines g d Hwf Hd) as Hm.
    pose proof (size_union_singleton_le d (mines g)).
    apply IH; [auto with minesweeper| |].
    + eapply Forall_impl; [done|]. intros x. by unfold valid_draw; rewrite Hh, Hw.
    + rewrite Hm. replace ({[d]} ∪ mines g ∪ list_to_set ds)
        with (mines g ∪ list_to_set (d :: ds)) by set_solver. lia.
Qed.

(** C29: when the request fits on the board, the constructor can finish: some
    sequence of [randrange] draws makes the [while] loop exit. *)
Theorem init_terminates h w n :
  (0 <= h)%Z -> (0 <= w)%Z -> (0 <= n <= h * w)%Z ->
  ∃ draws g, Forall (in_bounds h w) draws ∧ init h w n draws = Placed g.
Proof.
  intros Hh Hw Hn. exists (all_cells h w).
  destruct (place_mines_exits n (all_cells h w)
              {| height := h; width := w; mines := ∅; board := empty_board h w; mines_found := ∅ |})
    as [g Hg]; [apply empty_board_wf| |cbn [mines]|].
  - apply Forall_forall. intros d Hd. by apply all_cells_spec.
  - rewrite union_empty_l_L, size_list_to_set by (apply NoDup_list_prod; apply NoDup_seqZ).
    rewrite size_empty, length_all_cells. lia.
  - exists g. split; [|done]. apply Forall_forall. intros d Hd. by apply all_cells_spec.
Qed.

(** ** Witnesses, on a 2x2 board with one mine at (0,0) *)

Definition board_2x2 : Minesweeper :=
  {| height := 2; width := 2; mines := {[(0,0)%Z]};
     board := [[true; false]; [false; false]]; mines_found := ∅ |}.

Lemma nearby_mines_spec_witness :
  wf board_2x2 ∧ nearby_mines board_2x2 (1,1)%Z = ⟪neighbours 2 2 (1,1)%Z ∩ {[(0,0)%Z]}⟫.
Proof.
  assert (H : wf board_2x2) by decide_prop.
  split; [exact H|exact (nearby_mines_spec board_2x2 (1,1)%Z H)].
Defined.

Lemma nearby_mines_le_8_witness : wf board_2x2 ∧ nearby_mines board_2x2 (0,1)%Z <= 8.
Proof.
  assert (H : wf board_2x2) by decide_prop.
  split; [exact H|exact (nearby_mines_le_8 board_2x2 (0,1)%Z H)].
Defined.

Lemma init_wf_witness :
  Forall (in_bounds 2 2) [(0,0)%Z] ∧ init 2 2 1 [(0,0)%Z] = Placed board_2x2 ∧
  (wf board_2x2 ∧ Z.of_nat ⟪mines board_2x2⟫ = 1%Z ∧ height board_2x2 = 2%Z ∧ width board_2x2 = 2%Z).
Proof.
  assert (Hd : Forall (in_bounds 2 2) [(0,0)%Z]) by decide_prop.
  assert (Hi : init 2 2 1 [(0,0)%Z] = Placed board_2x2) by (vm_compute; reflexivity).
  exact (conj Hd (conj Hi (init_wf 2 2 1 [(0,0)%Z] board_2x2 Hd Hi))).
Defined.

Lemma place_mines_diverges_witness :
  wf board_2x2 ∧ Forall (valid_draw board_2x2) [(0,1)%Z; (1,1)%Z] ∧
  (5 < 0 ∨ Z.of_nat (Z.to_nat (height board_2x2) * Z.to_nat (width board_2x2)) < 5)%Z ∧
  place_mines 5 [(0,1)%Z; (1,1)%Z] board_2x2 = OutOfDraws.
Proof.
  assert (H1 : wf board_2x2) by decide_prop.
  assert (H2 : Forall (valid_draw board_2x2) [(0,1)%Z; (1,1)%Z]) by decide_prop.
  assert (H3 : (5 < 0 ∨ Z.of_nat (Z.to_nat (height board_2x2) * Z.to_nat (width board_2x2)) < 5)%Z)
    by (simpl; lia).
  exact (conj H1 (conj H2 (conj H3 (place_mines_diverges 5 _ board_2x2 H1 H2 H3)))).
Defined.

Lemma init_range_error_witness :
  (0 <= 0 ∨ 3 <= 0)%Z ∧ init 0 3 1 [(0,0)%Z] = RandrangeError ∧ init 0 3 0 [] = Placed
    {| height := 0; width := 3; mines := ∅; board := []; mines_found := ∅ |}.
Proof.
  assert (H : (0 <= 0 ∨ 3 <= 0)%Z) by lia.
  split_and!; [exact H|apply (init_range_error 0 3 1 [(0,0)%Z] H); lia|reflexivity].
Defined.

Lemma init_terminates_witness :
  (0 <= 2)%Z ∧ (0 <= 2)%Z ∧ (0 <= 3 <= 2 * 2)%Z ∧
  ∃ draws g, Forall (in_bounds 2 2) draws ∧ init 2 2 3 draws = Placed g.
Proof.
  assert (H1 : (0 <= 2)%Z) by lia. assert (H2 : (0 <= 3 <= 2 * 2)%Z) by lia.
  exact (conj H1 (conj H1 (conj H2 (init_terminates 2 2 3 H1 H1 H2)))).
Defined.

End Minesweeper.
