(* ===== verification/Render.v ===== *)
(** [Minesweeper.print] (src/minesweeper.py lines 39-52): the text
    rendering of the grid.

    [print] is modelled as the text it writes to standard output,
    together with whether it stopped on an [IndexError] of
    [self.board[i][j]].  On a rectangular grid, one row per [height] and
    one cell per [width], it never raises, and the text it writes
    determines the grid: [parse] reads it back ([print_roundtrip]).  Every
    board the constructor builds is rectangular. *)

From Stdlib Require Import String Ascii.
From S2P Require Import Prelude Board.
Open Scope minesweeper_scope.
Set Warnings "-clear-no-such-hyp".

Module Render.
Import Minesweeper.
Open Scope string_scope.

(** ** The rendering *)

(** The newline [print] writes after each line. *)
Definition nl : string := String "010"%char EmptyString.

(** Python's [s * n] for a string [s]; a negative [n] gives [""]. *)
Fixpoint str_mul (s : string) (n : nat) : string :=
  match n with O => "" | S n => s ++ str_mul s n end.

(** [print("--" * self.width + "-")]: the rule between rows. *)
Definition rule (w : Z) : string := str_mul "--" (Z.to_nat w) ++ "-".

(** [print("|X", end="")] for a mine, [print("| ", end="")] otherwise. *)
Definition cell_text (x : bool) : string := if x then "|X" else "| ".

(** Lines 45-49: the cells of row [i], appended to the text [out] written
    so far.  [true] in the result means [self.board[i][j]] raised
    [IndexError]. *)
Fixpoint print_cells (b : list (list bool)) (i : Z) (js : list Z) (out : string) : string * bool :=
  match js with
  | [] => (out, false)
  | j :: js' =>
      match board_get b (i, j) with
      | Some x => print_cells b i js' (out ++ cell_text x)
      | None => (out, true)
      end
  end.

(** Lines 43-51: each row is a rule, its cells and a closing [|]; the last
    rule follows the rows. *)
Fixpoint print_rows (b : list (list bool)) (w : Z) (ixs : list Z) (out : string) : string * bool :=
  match ixs with
  | [] => (out ++ rule w ++ nl, false)
  | i :: ixs' =>
      match print_cells b i (seqZ 0 w) (out ++ rule w ++ nl) with
      | (o, true) => (o, true)
      | (o, false) => print_rows b w ixs' (o ++ "|" ++ nl)
      end
  end.

(** [print], lines 39-52. *)
Definition print (g : Minesweeper) : string * bool :=
  print_rows (board g) (width g) (seqZ 0 (height g)) "".

(** ** Reading the text back *)

(** Skips a rule and its newline. *)
Fixpoint skip_rule (s : string) : option string :=
  match s with
  | String c r => if Ascii.eqb c "-" then skip_rule r else if Ascii.eqb c "010" then Some r else None
  | EmptyString => None
  end.

(** Reads the cells of one row up to its closing [|] and newline. *)
Fixpoint parse_cells (s : string) : option (list bool * string) :=
  match s with
  | String c1 (String c2 r) =>
      if Ascii.eqb c1 "|" then
        if Ascii.eqb c2 "X" then (fun p => (true :: p.1, p.2)) <$> parse_cells r
        else if Ascii.eqb c2 " " then (fun p => (false :: p.1, p.2)) <$> parse_cells r
        else if Ascii.eqb c2 "010" then Some ([], r)
        else None
      else None
  | _ => None
  end.

(** Reads rows until the final rule; each row consumes at least one
    character, so the text's length is enough fuel. *)
Fixpoint parse_grid (fuel : nat) (s : string) : option (list (list bool)) :=
  match fuel with
  | O => None
  | S f =>
      skip_rule s ≫= fun r =>
      match r with
      | EmptyString => Some []
      | _ => parse_cells r ≫= fun p => (fun rows => p.1 :: rows) <$> parse_grid f p.2
      end
  end.

Definition parse (s : string) : option (list (list bool)) := parse_grid (String.length s) s.

(** ** The text of a grid *)

Fixpoint cells_text (row : list bool) : string :=
  match row with [] => "" | x :: r => cell_text x ++ cells_text r end.

Fixpoint grid_text (w : Z) (rows : list (list bool)) : string :=
  match rows with
  | [] => rule w ++ nl
  | r :: rs => rule w ++ nl ++ cells_text r ++ "|" ++ nl ++ grid_text w rs
  end.

(** One row per [height], one cell per [width]. *)
Definition rectangular (g : Minesweeper) : Prop :=
  length (board g) = Z.to_nat (height g) ∧ Forall (fun r => length r = Z.to_nat (width g)) (board g).

(** ** Lemmas *)

(** Let [simpl] compute string concatenation in this file's proofs. *)
#[local] Arguments String.append _ _ : simpl nomatch.

Lemma append_assoc_str (a b c : string) : (a ++ b) ++ c = a ++ (b ++ c).
Proof. induction a as [|x a IH]; simpl; [done|]. by rewrite IH. Qed.

Lemma append_empty_str (a : string) : a ++ "" = a.
Proof. induction a as [|x a IH]; simpl; [done|]. by rewrite IH. Qed.

Lemma length_append_str (a b : string) : String.length (a ++ b) = String.length a + String.length b.
Proof. induction a as [|x a IH]; simpl; [done|]. by rewrite IH. Qed.

Lemma skip_rule_text w r : skip_rule (rule w ++ nl ++ r) = Some r.
Proof.
  unfold rule. rewrite append_assoc_str. induction (Z.to_nat w) as [|n IH]; [done|].
  simpl. done.
Qed.

Lemma parse_cells_text row r : parse_cells (cells_text row ++ "|" ++ nl ++ r) = Some (row, r).
Proof.
  induction row as [|x row IH]; [done|]. simpl in IH. destruct x; simpl; by rewrite IH.
Qed.

Lemma length_grid_text w rows : length rows < String.length (grid_text w rows).
Proof.
  induction rows as [|r rs IH]; simpl; unfold rule; rewrite !length_append_str; simpl;
    rewrite ?length_append_str; simpl; lia.
Qed.

Lemma parse_grid_text f w rows : length rows < f -> parse_grid f (grid_text w rows) = Some rows.
Proof.
  revert f. induction rows as [|r rs IH]; intros [|f] Hf; simpl in Hf; try lia; cbn [parse_grid grid_text].
  - pose proof (skip_rule_text w "") as Hs. rewrite append_empty_str in Hs. by rewrite Hs.
  - rewrite skip_rule_text.
    assert (Hne : ∃ c t, cells_text r ++ "|" ++ nl ++ grid_text w rs = String c t)
      by (destruct r as [|[] r]; simpl; eauto).
    destruct Hne as (c & t & Heq). cbn [mbind option_bind]. rewrite Heq, <- Heq.
    rewrite parse_cells_text. simpl. rewrite IH by lia. done.
Qed.

(** The text of one row when every cell of the row is read. *)
Lemma print_cells_text b i row k n out :
  (0 <= i)%Z -> b !! Z.to_nat i = Some row -> k + n <= length row ->
  print_cells b i (seqZ (Z.of_nat k) (Z.of_nat n)) out = (out ++ cells_text (take n (drop k row)), false).
Proof.
  intros Hi Hrow. revert k out. induction n as [|n IH]; intros k out Hk.
  { simpl. by rewrite append_empty_str. }
  destruct (lookup_lt_is_Some_2 row k) as [x Hx]; [lia|].
  rewrite seqZ_cons by lia. cbn [print_cells].
  assert (Hget : board_get b (i, Z.of_nat k) = Some x).
  { unfold board_get. simpl. rewrite py_get_nonneg, Hrow by lia. simpl.
    rewrite py_get_nonneg by lia. by rewrite Nat2Z.id. }
  rewrite Hget. replace (Z.succ (Z.of_nat k)) with (Z.of_nat (S k)) by lia.
  replace (Z.pred (Z.of_nat (S n))) with (Z.of_nat n) by lia.
  rewrite IH by lia. rewrite (drop_S row x k Hx). simpl. by rewrite append_assoc_str.
Qed.

(** [range(n)] for a negative [n] is empty. *)
Lemma seqZ_to_nat m n : seqZ m n = seqZ m (Z.of_nat (Z.to_nat n)).
Proof. destruct (Z.le_gt_cases 0 n); [by rewrite Z2Nat.id|by rewrite (seqZ_nil m n), Z2Nat.nonpos by lia]. Qed.

(** On a rectangular grid [print] writes [grid_text] and never raises. *)
Lemma print_rows_text b w k n out :
  k + n = length b -> Forall (fun r => length r = Z.to_nat w) b ->
  print_rows b w (seqZ (Z.of_nat k) (Z.of_nat n)) out = (out ++ grid_text w (drop k b), false).
Proof.
  revert k out. induction n as [|n IH]; intros k out Hk Hb.
  { simpl. rewrite drop_ge by lia. done. }
  destruct (lookup_lt_is_Some_2 b k) as [r Hr]; [lia|].
  rewrite seqZ_cons by lia. cbn [print_rows].
  assert (Hlen : length r = Z.to_nat w) by (rewrite Forall_lookup in Hb; by apply (Hb k)).
  pose proof (print_cells_text b (Z.of_nat k) r 0 (length r) (out ++ rule w ++ nl)) as Hc.
  rewrite Nat2Z.id in Hc. change (Z.of_nat 0) with 0%Z in Hc.
  rewrite (seqZ_to_nat 0 w), <- Hlen, Hc by (lia || done). rewrite drop_0, take_ge by lia.
  replace (Z.succ (Z.of_nat k)) with (Z.of_nat (S k)) by lia.
  replace (Z.pred (Z.of_nat (S n))) with (Z.of_nat n) by lia.
  rewrite IH by (lia || done). rewrite (drop_S b r k Hr). simpl. by rewrite !append_assoc_str.
Qed.

(** The grid written by [board_set] keeps its shape. *)
Lemma place_step_rectangular g d : rectangular g -> rectangular (place_step g d).
Proof.
  intros [Hh Hw]. unfold place_step. destruct (board_get _ _) as [[]|]; [done| |done].
  unfold rectangular, board_set; simpl. split.
  - by rewrite length_alter.
  - apply Forall_alter; [done|]. intros r _ Hr. by rewrite length_insert.
Qed.

(** Every board the constructor builds is rectangular. *)
Lemma init_rectangular h w n draws g : init h w n draws = Placed g -> rectangular g.
Proof.
  unfold init. assert (Hr : rectangular {| height := h; width := w; mines := ∅;
                                           board := empty_board h w; mines_found := ∅ |}).
  { unfold rectangular, empty_board; simpl. split; [apply length_replicate|].
    apply Forall_replicate, length_replicate. }
  revert Hr. generalize {| height := h; width := w; mines := ∅; board := empty_board h w; mines_found := ∅ |}.
  induction draws as [|d ds IH]; intros g0 Hg0 Hp; simpl in Hp; repeat case_decide; simplify_eq; try done.
  apply (IH (place_step g0 d)); [by apply place_step_rectangular|done].
Qed.

(** [print] writes [grid_text] on a rectangular grid. *)
Lemma print_text g : rectangular g -> print g = (grid_text (width g) (board g), false).
Proof.
  intros [Hh Hw]. unfold print. rewrite (seqZ_to_nat 0 (height g)), <- Hh.
  rewrite (print_rows_text _ _ 0 (length (board g))) by done. by rewrite drop_0.
Qed.

(** C17: printing a board the constructor built never raises, and the text
    it writes determines the grid: reading it back gives [self.board]. *)
Theorem print_roundtrip h w n draws g :
  init h w n draws = Placed g -> (print g).2 = false ∧ parse (print g).1 = Some (board g).
Proof.
  intros Hi. rewrite (print_text g (init_rectangular h w n draws g Hi)). split; [done|].
  apply parse_grid_text, length_grid_text.
Qed.

Lemma print_roundtrip_witness :
  init 2 2 1 [(0,0)%Z] = Placed board_2x2 ∧
  ((print board_2x2).2 = false ∧ parse (print board_2x2).1 = Some (board board_2x2)).
Proof.
  assert (Hi : init 2 2 1 [(0,0)%Z] = Placed board_2x2) by (vm_compute; reflexivity).
  exact (conj Hi (print_roundtrip 2 2 1 [(0,0)%Z] board_2x2 Hi)).
Defined.

End Render.
