(* ===== verification/AI.v ===== *)
(** The class [MinesweeperAI] of src/minesweeper.py (lines 144-304): the
    agent's state, [mark_mine], [mark_safe] and [add_knowledge].
    [add_knowledge] is one definition per loop of the source, composed in
    the source's order:
    - [neighbour_cells]: lines 210-219;
    - [add_if_new]: lines 222-229;
    - [remove_cell]: lines 236-238;
    - [remove_empty]: lines 241-243;
    - [subset_resolution]: lines 250-271;
    - [Sentence.mark_cells]: lines 277-280;
    - [collect]: lines 282-286;
    - [drop_moves_made]: lines 288-295.
    The empty-sentence clean-up removes entries from the list it iterates,
    so it is modelled with an explicit index and CPython's iterator rule:
    after a removal the next element is skipped.  The clean-up equals
    [filter] unless two adjacent entries are empty, and leaves an empty
    sentence exactly in that case ([remove_empty_filter],
    [remove_empty_keeps_empty]).  The other structural theorems say that
    sentence cells are never probed cells, that probed cells leave
    [safes], and that no conclusion is ever forgotten. *)

From S2P Require Import Prelude Sentence.
Open Scope minesweeper_scope.
Set Warnings "-clear-no-such-hyp".

Module MinesweeperAI.

Abbreviation Sentence := Sentence.Sentence.

Record MinesweeperAI := mkAI {
  height : Z;
  width : Z;
  number_of_mines : Z;
  moves_made : gset Cell;
  mines : gset Cell;
  safes : gset Cell;
  knowledge : list Sentence
}.

(** [__init__], lines 149-164. *)
Definition init (h w n : Z) : MinesweeperAI :=
  {| height := h; width := w; number_of_mines := n;
     moves_made := ∅; mines := ∅; safes := ∅; knowledge := [] |}.

(** [mark_mine], lines 166-173. *)
Definition mark_mine (ai : MinesweeperAI) (c : Cell) : MinesweeperAI :=
  {| height := height ai; width := width ai; number_of_mines := number_of_mines ai;
     moves_made := moves_made ai; mines := {[c]} ∪ mines ai; safes := safes ai;
     knowledge := map (fun s => Sentence.mark_mine s c) (knowledge ai) |}.

(** [mark_safe], lines 175-182. *)
Definition mark_safe (ai : MinesweeperAI) (c : Cell) : MinesweeperAI :=
  {| height := height ai; width := width ai; number_of_mines := number_of_mines ai;
     moves_made := moves_made ai; mines := mines ai; safes := {[c]} ∪ safes ai;
     knowledge := map (fun s => Sentence.mark_safe s c) (knowledge ai) |}.

(** Lines 210-219: the cells [(cell[0]+i, cell[1]+j)] for [i, j] in
    [range(-1, 2)] that are in bounds and not in [moves_made]. *)
Definition neighbour_cells (h w : Z) (mm : gset Cell) (cell : Cell) : gset Cell :=
  foldl (fun acc (o : Z * Z) =>
           let d := (cell.1 + o.1, cell.2 + o.2)%Z in
           if decide (cell.1 + o.1 > -1 ∧ cell.1 + o.1 < h ∧ cell.2 + o.2 > -1 ∧ cell.2 + o.2 < w)%Z
           then if decide (d ∉ mm) then {[d]} ∪ acc else acc
           else acc)
        ∅ (list_prod (seqZ (-1) 3) (seqZ (-1) 3)).

(** Lines 222-229 (and 261-269): append [s] unless an equal sentence, in the
    sense of [__eq__], is already in the list. *)
Definition add_if_new (s : Sentence) (K : list Sentence) : list Sentence :=
  if existsb (Sentence.eqb s) K then K else K ++ [s].

(** Lines 236-238: [if cell in statement.cells: statement.cells.remove(cell)];
    the count is left unchanged. *)
Definition remove_cell (cell : Cell) (s : Sentence) : Sentence :=
  if decide (cell ∈ Sentence.cells s)
  then {| Sentence.cells := Sentence.cells s ∖ {[cell]}; Sentence.count := Sentence.count s;
          Sentence.mines := Sentence.mines s; Sentence.safes := Sentence.safes s |}
  else s.

(** Lines 241-243 (and 334-336): [for statement in self.knowledge:
    if len(statement.cells) == 0: self.knowledge.remove(statement)].
    The list iterator holds an index [i] and stops when [i] reaches the
    current length.  [list.remove] deletes the first entry [__eq__]-equal to
    [statement]: that entry is at an index [<= i], so the element after
    [statement] moves to index [i] and is never visited.  The [ValueError]
    branch of [list.remove] cannot occur, since [statement] itself is in
    the list.  [fuel] bounds the number of iterations; [remove_empty] gives
    it the list's length, which [purge_loop_fuel] shows is enough. *)
Fixpoint purge_loop (fuel i : nat) (K : list Sentence) : list Sentence :=
  match fuel with
  | O => K
  | S f =>
      match K !! i with
      | None => K
      | Some s =>
          if decide (Sentence.cells s = ∅)
          then purge_loop f (S i) (default K (remove_first (Sentence.eqb s) K))
          else purge_loop f (S i) K
      end
  end.

Definition remove_empty (K : list Sentence) : list Sentence := purge_loop (length K) 0 K.

(** Whether two adjacent entries of [K] both have no cells: the pattern on
    which the clean-up loop skips an empty sentence. *)
Fixpoint adjacent_empty (K : list Sentence) : bool :=
  match K with
  | s :: (t :: _) as K' =>
      (bool_decide (Sentence.cells s = ∅) && bool_decide (Sentence.cells t = ∅)) || adjacent_empty K'
  | _ => false
  end.

(** [itertools.permutations(K, 2)]: every ordered pair of entries at distinct
    positions, in lexicographic order of the positions. *)
Definition perms2 {A} (l : list A) : list (A * A) :=
  concat (imap (fun i a => map (pair a) (delete i l)) l).

(** Lines 254-271, one pair [(A, B)]: if both counts are non-zero and
    [A.cells <= B.cells], the sentence [B.cells - A.cells = B.count - A.count]
    is appended when its cell set is not empty and it is new. *)
Definition resolve_pair (K : list Sentence) (p : Sentence * Sentence) : list Sentence :=
  let a := p.1 in let b := p.2 in
  if decide (Sentence.count a ≠ 0%Z ∧ Sentence.count b ≠ 0%Z) then
    if decide (Sentence.cells a ⊆ Sentence.cells b) then
      let perm_cells := Sentence.cells b ∖ Sentence.cells a in
      if decide (perm_cells ≠ ∅)
      then add_if_new (Sentence.init perm_cells (Sentence.count b - Sentence.count a)) K
      else K
    else K
  else K.

(** Lines 250-271: [permutations] takes a snapshot of the list, so sentences
    appended during the loop are compared for duplicates but never resolved
    themselves in this call. *)
Definition subset_resolution (K : list Sentence) : list Sentence :=
  foldl resolve_pair K (perms2 K).

(** Lines 282-286: every sentence's [mines] and [safes] are added to the
    agent's. *)
Definition collect (ms ss : gset Cell) (K : list Sentence) : gset Cell * gset Cell :=
  foldl (fun acc s => (Sentence.mines s ∪ acc.1, Sentence.safes s ∪ acc.2)) (ms, ss) K.

(** Lines 288-295: the cells of [safes] already in [moves_made] are removed. *)
Definition drop_moves_made (ss mm : gset Cell) : gset Cell :=
  let to_remove := filter (fun i => i ∈ mm) ss in ss ∖ to_remove.

(** [add_knowledge(cell, count)], lines 184-302.  The final [print] of line
    302 has no effect on the state. *)
Definition add_knowledge (ai : MinesweeperAI) (cell : Cell) (count : Z) : MinesweeperAI :=
  let mm := {[cell]} ∪ moves_made ai in
  let ss := {[cell]} ∪ safes ai in
  let new_sentence := Sentence.init (neighbour_cells (height ai) (width ai) mm cell) count in
  let K1 := add_if_new new_sentence (knowledge ai) in
  let K2 := map (remove_cell cell) K1 in
  let K3 := remove_empty K2 in
  let K4 := subset_resolution K3 in
  let K5 := map Sentence.mark_cells K4 in
  let ms_ss := collect (mines ai) ss K5 in
  {| height := height ai; width := width ai; number_of_mines := number_of_mines ai;
     moves_made := mm; mines := ms_ss.1; safes := drop_moves_made ms_ss.2 mm;
     knowledge := K5 |}.

(** ** Lemmas on the steps of [add_knowledge] *)

Lemma purge_loop_sublist f i K : sublist (purge_loop f i K) K.
Proof.
  revert i K. induction f as [|f IH]; intros i K; simpl; [done|].
  destruct (K !! i) as [s|]; [|done]. case_decide; [|apply IH].
  destruct (remove_first (Sentence.eqb s) K) as [K'|] eqn:E; simpl; [|apply IH].
  etrans; [apply IH|]. by eapply remove_first_sublist.
Qed.

Lemma remove_first_length_le p (K : list Sentence) :
  length (default K (remove_first p K)) <= length K.
Proof.
  destruct (remove_first p K) eqn:E; simpl; [|lia].
  apply remove_first_length in E. lia.
Qed.

(** The clean-up loop of lines 241-243 terminates within the list's length:
    any fuel from [length K - i] on gives the same result, so the fuel
    [remove_empty] passes never runs out. *)
Lemma purge_loop_fuel f1 f2 i K :
  length K - i <= f1 -> length K - i <= f2 -> purge_loop f1 i K = purge_loop f2 i K.
Proof.
  revert f2 i K. induction f1 as [|f1 IH]; intros f2 i K H1 H2.
  - destruct f2 as [|f2]; simpl; [done|]. by rewrite lookup_ge_None_2 by lia.
  - destruct f2 as [|f2]; simpl; [by rewrite lookup_ge_None_2 by lia|].
    destruct (K !! i) as [s|] eqn:Hi; [|done].
    apply lookup_lt_Some in Hi. case_decide; apply IH;
      try pose proof (remove_first_length_le (Sentence.eqb s) K); lia.
Qed.

Lemma purge_loop_done f i K : length K <= i -> purge_loop f i K = K.
Proof. intros Hi. destruct f; simpl; [done|]. by rewrite lookup_ge_None_2. Qed.

Lemma adjacent_empty_cons s K :
  Sentence.cells s ≠ ∅ -> adjacent_empty (s :: K) = adjacent_empty K.
Proof. intros Hs. destruct K; [done|]. cbn [adjacent_empty]. by rewrite bool_decide_false. Qed.

Lemma eqb_empty_nonempty s p :
  Sentence.cells s = ∅ -> Sentence.cells p ≠ ∅ -> Sentence.eqb s p = false.
Proof. intros Hs Hp. unfold Sentence.eqb. apply bool_decide_eq_false. intros [? _]. congruence. Qed.

(** Once an empty sentence sits before the iterator's index, some empty
    sentence stays in the list until the loop ends: [list.remove] deletes an
    entry at or before the index, and the visited entry, if it moves, moves
    behind the index. *)
Lemma purge_loop_keeps f i K :
  (∃ k y, k < i ∧ K !! k = Some y ∧ Sentence.cells y = ∅) ->
  ∃ y, y ∈ purge_loop f i K ∧ Sentence.cells y = ∅.
Proof.
  revert i K. induction f as [|f IH]; intros i K (k & y & Hk & Hy & He); simpl.
  { exists y. split; [by eapply list_elem_of_lookup_2|done]. }
  destruct (K !! i) as [s|] eqn:Hi.
  2: { exists y. split; [by eapply list_elem_of_lookup_2|done]. }
  case_decide as Hs; [|apply IH; exists k, y; split_and!; [lia|done..]].
  destruct (remove_first (Sentence.eqb s) K) as [K'|] eqn:E; simpl.
  2: { apply IH. exists k, y. split_and!; [lia|done..]. }
  apply remove_first_delete in E as (j & z & Hj & Hz & -> & Hfirst).
  assert (j <= i).
  { destruct (decide (i < j)) as [Hij|]; [|lia].
    specialize (Hfirst i s Hij Hi). by rewrite Sentence.eqb_refl in Hfirst. }
  apply IH. destruct (decide (j = i)) as [->|Hji].
  - exists k, y. split_and!; [lia| |done]. by rewrite list_lookup_delete_lt.
  - exists (i - 1), s. split_and!; [lia| |done].
    rewrite list_lookup_delete_ge by lia. by replace (S (i - 1)) with i by lia.
Qed.

(** The loop from index [length P], where the processed prefix [P] has no
    empty sentence: without adjacent empty entries in the rest it removes
    exactly the empty ones; with them, one survives. *)
Lemma purge_loop_prefix f P R :
  Forall (fun s => Sentence.cells s ≠ ∅) P -> length R <= f ->
  (adjacent_empty R = false ->
     purge_loop f (length P) (P ++ R) = P ++ filter (fun s => Sentence.cells s ≠ ∅) R) ∧
  (adjacent_empty R = true ->
     ∃ y, y ∈ purge_loop f (length P) (P ++ R) ∧ Sentence.cells y = ∅).
Proof.
  revert P R. induction f as [|f IH]; intros P R HP HR.
  { destruct R; [|simpl in HR; lia]. by rewrite !app_nil_r. }
  destruct R as [|s R]; [by rewrite purge_loop_done, !app_nil_r by (rewrite app_nil_r; lia)|].
  cbn [purge_loop]. rewrite list_lookup_middle by done. cbn [length] in HR.
  case_decide as Hs.
  - rewrite remove_first_app; cbn [default];
      [|apply (Forall_impl _ _ _ HP); intros p Hp; by apply eqb_empty_nonempty|apply Sentence.eqb_refl].
    unfold id. destruct R as [|t R].
    { split; [|done]. intros _. rewrite !app_nil_r, purge_loop_done by lia.
      rewrite filter_cons_False by (intros []; done). by rewrite app_nil_r. }
    destruct (decide (Sentence.cells t = ∅)) as [Ht|Ht].
    + split; [cbn [adjacent_empty]; by rewrite !bool_decide_true|]. intros _.
      apply purge_loop_keeps. exists (length P), t. split_and!; [lia|by apply list_lookup_middle|done].
    + replace (P ++ t :: R) with ((P ++ [t]) ++ R) by (by rewrite <- app_assoc).
      replace (S (length P)) with (length (P ++ [t])) by (rewrite length_app; simpl; lia).
      destruct (IH (P ++ [t]) R) as [IH1 IH2]; [by apply Forall_app; split; [|constructor]|cbn in HR; lia|].
      change (adjacent_empty (s :: t :: R)) with
        ((bool_decide (Sentence.cells s = ∅) && bool_decide (Sentence.cells t = ∅))
         || adjacent_empty (t :: R)).
      rewrite (bool_decide_false (Sentence.cells t = ∅)) by done.
      rewrite andb_false_r, orb_false_l, adjacent_empty_cons by done. split; [|done].
      intros Hadj. rewrite IH1 by done. rewrite filter_cons_False by (intros []; done).
      rewrite filter_cons_True by done. by rewrite <- app_assoc.
  - replace (P ++ s :: R) with ((P ++ [s]) ++ R) by (by rewrite <- app_assoc).
    replace (S (length P)) with (length (P ++ [s])) by (rewrite length_app; simpl; lia).
    destruct (IH (P ++ [s]) R) as [IH1 IH2]; [by apply Forall_app; split; [|constructor]|lia|].
    rewrite adjacent_empty_cons by done. split; [|done].
    intros Hadj. rewrite IH1 by done. rewrite filter_cons_True by done. by rewrite <- app_assoc.
Qed.

Lemma remove_empty_cases K :
  (adjacent_empty K = false -> remove_empty K = filter (fun s => Sentence.cells s ≠ ∅) K) ∧
  (adjacent_empty K = true -> ∃ y, y ∈ remove_empty K ∧ Sentence.cells y = ∅).
Proof. exact (purge_loop_prefix (length K) [] K (Forall_nil_2 _) (le_n _)). Qed.

(** C21: without two adjacent empty sentences, the clean-up loop of lines
    241-243 (and 334-336) does what its comment says: it removes exactly the
    sentences without cells and keeps the others in order. *)
Theorem remove_empty_filter K :
  adjacent_empty K = false -> remove_empty K = filter (fun s => Sentence.cells s ≠ ∅) K.
Proof.
  apply remove_empty_cases.
Qed.

(** C22: the clean-up loop leaves a sentence without cells in the list
    exactly when two adjacent entries have no cells: removing an entry
    while iterating skips the next one. *)
Theorem remove_empty_keeps_empty K :
  (∃ s, s ∈ remove_empty K ∧ Sentence.cells s = ∅) <-> adjacent_empty K = true.
Proof.
  split.
  - intros (s & Hs & He). destruct (adjacent_empty K) eqn:E; [done|].
    rewrite (proj1 (remove_empty_cases K) E) in Hs.
    by apply list_elem_of_filter in Hs as [? _].
  - apply remove_empty_cases.
Qed.

Lemma elem_of_perms2 {A} (l : list A) a b : (a, b) ∈ perms2 l -> a ∈ l ∧ b ∈ l.
Proof.
  unfold perms2. rewrite list_elem_of_In, in_concat. intros (xs & Hxs & Hab).
  apply list_elem_of_In in Hxs, Hab. apply elem_of_lookup_imap in Hxs as (i & a' & -> & Hi).
  apply list_elem_of_fmap in Hab as (b' & [= -> ->] & Hb).
  split; [by eapply list_elem_of_lookup_2|]. by eapply list_elem_of_delete_inv.
Qed.

Lemma neighbour_cells_fold (h w : Z) (mm : gset Cell) (cell : Cell) (l : list (Z * Z)) (X : gset Cell) :
  foldl (fun acc (o : Z * Z) =>
           let d := (cell.1 + o.1, cell.2 + o.2)%Z in
           if decide (cell.1 + o.1 > -1 ∧ cell.1 + o.1 < h ∧ cell.2 + o.2 > -1 ∧ cell.2 + o.2 < w)%Z
           then if decide (d ∉ mm) then {[d]} ∪ acc else acc else acc) X l =
  X ∪ list_to_set ((fun o : Z * Z => (cell.1 + o.1, cell.2 + o.2)%Z) <$>
     filter (fun o : Z * Z => in_bounds h w (cell.1 + o.1, cell.2 + o.2)%Z ∧
                              (cell.1 + o.1, cell.2 + o.2)%Z ∉ mm) l).
Proof.
  revert X. induction l as [|o l IH]; intros X; cbn [foldl].
  - rewrite filter_nil. simpl. set_solver.
  - rewrite IH, filter_cons. lazy beta zeta.
    repeat case_decide; rewrite ?fmap_cons, ?list_to_set_cons.
    all: try (exfalso; unfold in_bounds in *; simpl in *; naive_solver lia).
    all: try reflexivity. all: by rewrite (union_comm_L {[_]} X), union_assoc_L.
Qed.

Lemma elem_of_neighbour_cells h w mm cell d :
  d ∈ neighbour_cells h w mm cell <-> d ∈ window cell ∧ in_bounds h w d ∧ d ∉ mm.
Proof.
  unfold neighbour_cells. rewrite neighbour_cells_fold, elem_of_union, elem_of_list_to_set.
  rewrite list_elem_of_fmap, elem_of_window. split.
  - intros [Hn|([o1 o2] & -> & Ho)]; [set_solver|].
    apply list_elem_of_filter in Ho as [[Hb Hm] Ho].
    apply list_elem_of_In, in_prod_iff in Ho as [Ho1 Ho2].
    apply list_elem_of_In, elem_of_seqZ in Ho1, Ho2. simpl in *. split_and!; try done; lia.
  - intros [Hw [Hb Hm]]. right. exists (d.1 - cell.1, d.2 - cell.2)%Z.
    assert ((cell.1 + (d.1 - cell.1), cell.2 + (d.2 - cell.2))%Z = d) as Hd
      by (destruct d; simpl; f_equal; lia).
    cbn [fst snd]. rewrite Hd. split; [done|]. apply list_elem_of_filter. cbn [fst snd]. rewrite Hd.
    split; [done|]. apply list_elem_of_In, in_prod_iff.
    rewrite <- !list_elem_of_In, !elem_of_seqZ. lia.
Qed.

(** The new sentence of lines 210-219 covers the in-bounds neighbours that
    have not been probed (the probed cell itself is in [mm]). *)
Lemma neighbour_cells_neighbours h w mm cell :
  cell ∈ mm -> neighbour_cells h w mm cell = neighbours h w cell ∖ mm.
Proof.
  intros Hc. apply set_eq. intros d.
  rewrite elem_of_neighbour_cells, elem_of_difference, elem_of_neighbours.
  split; [|tauto]. intros (? & ? & ?). split_and!; try done. by intros ->.
Qed.

Section Preservation.
(** A property of sentences that the steps of [add_knowledge] preserve. *)
Variable P : Sentence -> Prop.
Hypothesis P_resolve : ∀ a b,
  P a -> P b -> Sentence.cells a ⊆ Sentence.cells b ->
  P (Sentence.init (Sentence.cells b ∖ Sentence.cells a) (Sentence.count b - Sentence.count a)).

Lemma Forall_add_if_new s K : Forall P K -> P s -> Forall P (add_if_new s K).
Proof. intros HK Hs. unfold add_if_new. case_match; [done|]. by apply Forall_app_2; [|constructor]. Qed.

Lemma Forall_remove_empty K : Forall P K -> Forall P (remove_empty K).
Proof. apply Forall_sublist_l, purge_loop_sublist. Qed.

Lemma Forall_resolve_pair K0 K p :
  Forall P K0 -> p ∈ perms2 K0 -> Forall P K -> Forall P (resolve_pair K p).
Proof.
  intros H0 Hp HK. destruct p as [a b]. apply elem_of_perms2 in Hp as [Ha Hb].
  rewrite Forall_forall in H0. unfold resolve_pair; simpl.
  repeat case_decide; try done. apply Forall_add_if_new; auto.
Qed.

Lemma Forall_subset_resolution K : Forall P K -> Forall P (subset_resolution K).
Proof.
  intros HK. unfold subset_resolution.
  assert (∀ ps K', (∀ p, p ∈ ps -> p ∈ perms2 K) -> Forall P K' -> Forall P (foldl resolve_pair K' ps))
    as Hgen.
  { induction ps as [|p ps IH]; intros K' Hps HK'; simpl; [done|].
    apply IH; [intros q Hq; apply Hps, elem_of_cons; by right|].
    apply (Forall_resolve_pair K); [done| |done]. apply Hps, elem_of_cons. by left. }
  by apply Hgen.
Qed.
End Preservation.

(** ** Structural theorems on [add_knowledge] *)

(** No sentence mentions a probed cell. *)
Definition fresh (ai : MinesweeperAI) : Prop :=
  Forall (fun s => Sentence.cells s ## moves_made ai) (knowledge ai).

#[global] Instance fresh_dec ai : Decision (fresh ai).
Proof. unfold fresh. apply _. Defined.

Lemma remove_cell_fields c s :
  Sentence.cells (remove_cell c s) = Sentence.cells s ∖ {[c]} ∧
  Sentence.count (remove_cell c s) = Sentence.count s ∧
  Sentence.mines (remove_cell c s) = Sentence.mines s ∧
  Sentence.safes (remove_cell c s) = Sentence.safes s.
Proof. unfold remove_cell. case_decide; simpl; split_and!; try done. set_solver. Qed.

Lemma collect_fst ms ss K x :
  x ∈ (collect ms ss K).1 <-> x ∈ ms ∨ Exists (fun s => x ∈ Sentence.mines s) K.
Proof.
  unfold collect. revert ms ss. induction K as [|s K IH]; intros ms ss; cbn [foldl].
  - rewrite Exists_nil. tauto.
  - rewrite IH, Exists_cons. cbn [fst snd]. rewrite elem_of_union. tauto.
Qed.

Lemma collect_snd ms ss K x :
  x ∈ (collect ms ss K).2 <-> x ∈ ss ∨ Exists (fun s => x ∈ Sentence.safes s) K.
Proof.
  unfold collect. revert ms ss. induction K as [|s K IH]; intros ms ss; cbn [foldl].
  - rewrite Exists_nil. tauto.
  - rewrite IH, Exists_cons. cbn [fst snd]. rewrite elem_of_union. tauto.
Qed.

Lemma elem_of_map_mark_cells s K :
  s ∈ map Sentence.mark_cells K -> ∃ s0, s0 ∈ K ∧ s = Sentence.mark_cells_spec s0.
Proof.
  rewrite list_elem_of_In, in_map_iff. intros (s0 & <- & Hs0).
  exists s0. rewrite Sentence.mark_cells_equiv. split; [by apply list_elem_of_In|done].
Qed.

(** The knowledge of [add_knowledge ai cell count], before marking. *)
Definition resolved_knowledge (ai : MinesweeperAI) (cell : Cell) (count : Z) : list Sentence :=
  let mm := {[cell]} ∪ moves_made ai in
  subset_resolution (remove_empty (map (remove_cell cell)
    (add_if_new (Sentence.init (neighbour_cells (height ai) (width ai) mm cell) count) (knowledge ai)))).

Lemma add_knowledge_unfold ai cell count :
  knowledge (add_knowledge ai cell count) = map Sentence.mark_cells (resolved_knowledge ai cell count) ∧
  moves_made (add_knowledge ai cell count) = {[cell]} ∪ moves_made ai.
Proof. done. Qed.

(** One observation preserves [fresh]; see [add_knowledge_fresh]. *)
Lemma fresh_add_knowledge ai cell count : fresh ai -> fresh (add_knowledge ai cell count).
Proof.
  intros Hf. unfold fresh. destruct (add_knowledge_unfold ai cell count) as [-> ->].
  apply Forall_map. eapply Forall_impl with (P := fun s => Sentence.cells s ## {[cell]} ∪ moves_made ai);
    [|intros s Hs; by rewrite Sentence.mark_cells_equiv].
  apply Forall_subset_resolution; [intros a b _ Hb Hab; simpl; set_solver|].
  apply Forall_remove_empty, Forall_map.
  apply (Forall_impl (fun s => Sentence.cells s ## moves_made ai));
    [|intros s Hs; destruct (remove_cell_fields cell s) as [-> _]; set_solver].
  apply Forall_add_if_new; [done|]. simpl. intros x Hx Hm.
  apply elem_of_neighbour_cells in Hx. set_solver.
Qed.

(** C9: [add_knowledge] keeps probed cells out of every sentence: the new
    sentence skips [moves_made], the probed cell is removed from the old
    ones, and resolved sentences are subsets of existing ones. *)
Theorem add_knowledge_fresh ai cell count : fresh ai -> fresh (add_knowledge ai cell count).
Proof. apply fresh_add_knowledge. Qed.

(** C8: after [add_knowledge], every conclusive sentence is reflected in the
    agent's knowledge: when its count equals its size all its cells are in
    [mines], and when its count is 0 all its cells are in [safes]. *)
Theorem add_knowledge_conclusive ai cell count s :
  fresh ai -> s ∈ knowledge (add_knowledge ai cell count) ->
  (Z.of_nat ⟪Sentence.cells s⟫ = Sentence.count s -> Sentence.cells s ⊆ mines (add_knowledge ai cell count)) ∧
  (Sentence.count s = 0%Z -> Sentence.cells s ⊆ safes (add_knowledge ai cell count)).
Proof.
  intros Hf Hs. pose proof (fresh_add_knowledge ai cell count Hf) as Hf'.
  unfold fresh in Hf'. rewrite Forall_forall in Hf'. specialize (Hf' s Hs).
  destruct (add_knowledge_unfold ai cell count) as [HK Hmm]. rewrite HK in Hs.
  apply elem_of_map_mark_cells in Hs as (s0 & Hs0 & ->).
  rewrite Hmm in Hf'. unfold Sentence.mark_cells_spec in *; simpl in *.
  split; intros Hc x Hx.
  - apply collect_fst. right. apply Exists_exists. exists (Sentence.mark_cells_spec s0).
    split; [apply list_elem_of_In, in_map_iff; exists s0; rewrite Sentence.mark_cells_equiv;
            split; [done|by apply list_elem_of_In]|].
    unfold Sentence.mark_cells_spec; simpl. rewrite decide_True by done. set_solver.
  - unfold drop_moves_made. apply elem_of_difference. split.
    + apply collect_snd. right. apply Exists_exists. exists (Sentence.mark_cells_spec s0).
      split; [apply list_elem_of_In, in_map_iff; exists s0; rewrite Sentence.mark_cells_equiv;
              split; [done|by apply list_elem_of_In]|].
      unfold Sentence.mark_cells_spec; simpl. rewrite decide_True by done. set_solver.
    + rewrite elem_of_filter. set_solver.
Qed.

(** C18: after [add_knowledge] no probed cell is offered as safe: [safes] and
    [moves_made] are disjoint, and the probed cell itself has left [safes]. *)
Theorem add_knowledge_safes_unprobed ai cell count :
  safes (add_knowledge ai cell count) ## moves_made (add_knowledge ai cell count) ∧
  cell ∉ safes (add_knowledge ai cell count).
Proof.
  cbn [safes moves_made add_knowledge]. unfold drop_moves_made.
  match goal with |- context [filter _ ?S] => generalize S end. intros S.
  split; [intros x Hx Hm|intros Hx]; rewrite elem_of_difference, elem_of_filter in Hx; set_solver.
Qed.

(** C19: the agent never forgets a conclusion: [add_knowledge] keeps every
    known mine and every probed cell, and a known-safe cell leaves [safes]
    only once it is probed. *)
Theorem add_knowledge_monotone ai cell count :
  mines ai ⊆ mines (add_knowledge ai cell count) ∧
  moves_made ai ⊆ moves_made (add_knowledge ai cell count) ∧
  safes ai ∖ moves_made (add_knowledge ai cell count) ⊆ safes (add_knowledge ai cell count).
Proof.
  split_and!.
  - intros x Hx. cbn [mines add_knowledge]. rewrite collect_fst. by left.
  - cbn [moves_made add_knowledge]. apply union_subseteq_r.
  - intros x [Hx Hmm]%elem_of_difference. cbn [safes moves_made add_knowledge] in *.
    unfold drop_moves_made. apply elem_of_difference. split.
    + rewrite collect_snd. left. by apply elem_of_union_r.
    + by intros [Hin _]%elem_of_filter.
Qed.

(** ** Witnesses *)

(** Three sentences, no two adjacent ones without cells. *)
Definition purge_example_sep : list Sentence :=
  [Sentence.init ∅ 0; Sentence.init {[(0,0)%Z]} 1; Sentence.init ∅ 0].

Lemma remove_empty_filter_witness :
  adjacent_empty purge_example_sep = false ∧
  remove_empty purge_example_sep = [Sentence.init {[(0,0)%Z]} 1].
Proof.
  assert (H : adjacent_empty purge_example_sep = false) by reflexivity.
  split; [exact H|]. rewrite (remove_empty_filter _ H). reflexivity.
Defined.

(** A 2x2 game: (1,1) is probed and reports 1; then (0,1) reports 1. *)
Definition ai_2x2 : MinesweeperAI := add_knowledge (init 2 2 1) (1,1)%Z 1.

Lemma add_knowledge_fresh_witness :
  fresh ai_2x2 ∧ fresh (add_knowledge ai_2x2 (0,1)%Z 1).
Proof.
  assert (H : fresh ai_2x2) by decide_prop.
  exact (conj H (add_knowledge_fresh ai_2x2 (0,1)%Z 1 H)).
Defined.

(** A 1x3 game: (0,2) reports 1, so its only unprobed neighbour (0,1) is a mine. *)
Definition conclusive_example : Sentence :=
  Sentence.mark_cells_spec (Sentence.init {[(0,1)%Z]} 1).

Lemma add_knowledge_conclusive_witness :
  fresh (init 1 3 1) ∧ conclusive_example ∈ knowledge (add_knowledge (init 1 3 1) (0,2)%Z 1) ∧
  ((Z.of_nat ⟪Sentence.cells conclusive_example⟫ = Sentence.count conclusive_example ->
    Sentence.cells conclusive_example ⊆ mines (add_knowledge (init 1 3 1) (0,2)%Z 1)) ∧
   (Sentence.count conclusive_example = 0%Z ->
    Sentence.cells conclusive_example ⊆ safes (add_knowledge (init 1 3 1) (0,2)%Z 1))).
Proof.
  assert (H1 : fresh (init 1 3 1)) by decide_prop.
  assert (H2 : conclusive_example ∈ knowledge (add_knowledge (init 1 3 1) (0,2)%Z 1)) by decide_prop.
  exact (conj H1 (conj H2 (add_knowledge_conclusive _ _ _ _ H1 H2))).
Defined.

End MinesweeperAI.
