(* ===== verification/Bounds.v ===== *)
(** Every cell the agent records is a cell of the board.

    [MinesweeperAI] keeps four kinds of cells: [moves_made], [mines],
    [safes] and the cells of its sentences.  [bounded] says that all of
    them satisfy [in_bounds height width].  The new sentence of
    [add_knowledge] only takes neighbours inside the board (lines 214-219
    of src/minesweeper.py), every later step only removes cells from
    sentences or copies cells between sentences and the agent's sets, so
    [add_knowledge] keeps [bounded] when the probed cell is on the board.
    The move selectors rely on this: a safe move or a random guess is
    always a cell of the board.  The same argument shows that every
    sentence has at most 8 cells ([add_knowledge_at_most_8]). *)

From S2P Require Import Prelude Sentence Board AI.
Open Scope minesweeper_scope.
Set Warnings "-clear-no-such-hyp".

Module Bounds.
Import MinesweeperAI.

(** All cells of [X] are on an [h] by [w] board. *)
Definition on_board (h w : Z) (X : gset Cell) : Prop := set_Forall (in_bounds h w) X.

(** A sentence's cells and its recorded conclusions are on the board. *)
Definition sentence_on_board (h w : Z) (s : Sentence) : Prop :=
  on_board h w (Sentence.cells s) ∧ on_board h w (Sentence.mines s) ∧ on_board h w (Sentence.safes s).

(** The agent's state invariant: every recorded cell is on its board. *)
Definition bounded (ai : MinesweeperAI) : Prop :=
  on_board (height ai) (width ai) (moves_made ai) ∧ on_board (height ai) (width ai) (mines ai) ∧
  on_board (height ai) (width ai) (safes ai) ∧
  Forall (sentence_on_board (height ai) (width ai)) (knowledge ai).

#[global] Instance on_board_dec h w X : Decision (on_board h w X).
Proof. unfold on_board. apply _. Defined.
#[global] Instance sentence_on_board_dec h w s : Decision (sentence_on_board h w s).
Proof. unfold sentence_on_board. apply _. Defined.
#[global] Instance bounded_dec ai : Decision (bounded ai).
Proof. unfold bounded. apply _. Defined.

(** ** Lemmas on [on_board] *)

Section OnBoard.
Context (h w : Z).

Lemma on_board_subseteq X Y : X ⊆ Y -> on_board h w Y -> on_board h w X.
Proof. intros HXY HY x Hx. by apply HY, HXY. Qed.

Lemma on_board_union X Y : on_board h w X -> on_board h w Y -> on_board h w (X ∪ Y).
Proof. intros. by apply set_Forall_union. Qed.

Lemma on_board_singleton c : in_bounds h w c -> on_board h w {[c]}.
Proof. unfold on_board. by rewrite set_Forall_singleton. Qed.

Lemma on_board_difference X Y : on_board h w X -> on_board h w (X ∖ Y).
Proof. intros HX x [Hx _]%elem_of_difference. by apply HX. Qed.

Lemma on_board_empty : on_board h w ∅.
Proof. apply set_Forall_empty. Qed.

Lemma neighbour_cells_on_board mm cell : on_board h w (neighbour_cells h w mm cell).
Proof. intros d Hd%elem_of_neighbour_cells. tauto. Qed.

Lemma remove_cell_on_board c s : sentence_on_board h w s -> sentence_on_board h w (remove_cell c s).
Proof.
  intros (Hc & Hm & Hs). unfold sentence_on_board.
  destruct (remove_cell_fields c s) as (-> & _ & -> & ->).
  split_and!; [by apply on_board_difference|done|done].
Qed.

(** Subset resolution derives sentences whose cells are a difference of
    cells already on the board. *)
Lemma resolve_on_board a b :
  sentence_on_board h w a -> sentence_on_board h w b -> Sentence.cells a ⊆ Sentence.cells b ->
  sentence_on_board h w (Sentence.init (Sentence.cells b ∖ Sentence.cells a)
                                       (Sentence.count b - Sentence.count a)).
Proof.
  intros _ (Hb & _ & _) _. split_and!; simpl; [by apply on_board_difference|apply on_board_empty..].
Qed.

Lemma mark_cells_on_board s : sentence_on_board h w s -> sentence_on_board h w (Sentence.mark_cells s).
Proof.
  intros (Hc & Hm & Hs). unfold sentence_on_board.
  rewrite Sentence.mark_cells_equiv. unfold Sentence.mark_cells_spec.
  split_and!; simpl; [done| |]; case_decide; auto using on_board_union.
Qed.

Lemma collect_on_board ms ss K :
  Forall (sentence_on_board h w) K -> on_board h w ms -> on_board h w ss ->
  on_board h w (collect ms ss K).1 ∧ on_board h w (collect ms ss K).2.
Proof.
  intros HK Hms Hss. rewrite Forall_forall in HK. split.
  - intros x [Hx|(s & Hs & Hx)%Exists_exists]%collect_fst; [by apply Hms|].
    destruct (HK s Hs) as (_ & Hm & _). by apply Hm.
  - intros x [Hx|(s & Hs & Hx)%Exists_exists]%collect_snd; [by apply Hss|].
    destruct (HK s Hs) as (_ & _ & Hsf). by apply Hsf.
Qed.
End OnBoard.

#[global] Hint Resolve on_board_union on_board_singleton on_board_empty neighbour_cells_on_board
  remove_cell_on_board resolve_on_board mark_cells_on_board : minesweeper.

(** One observation of a cell on the board preserves [bounded]; see
    [add_knowledge_bounded]. *)
Lemma bounded_add_knowledge ai cell count :
  bounded ai -> in_bounds (height ai) (width ai) cell -> bounded (add_knowledge ai cell count).
Proof.
  intros (Hmm & Hm & Hs & HK) Hc.
  assert (Forall (sentence_on_board (height ai) (width ai)) (knowledge (add_knowledge ai cell count)))
    as HK'.
  { destruct (add_knowledge_unfold ai cell count) as [-> _]. apply Forall_map.
    eapply Forall_impl; [|intros s Hs'; by apply mark_cells_on_board].
    apply Forall_subset_resolution; [auto with minesweeper|].
    apply Forall_remove_empty, Forall_map.
    eapply Forall_impl; [|intros s Hs'; by apply remove_cell_on_board].
    apply Forall_add_if_new; [done|]. split_and!; simpl; auto with minesweeper. }
  destruct (collect_on_board (height ai) (width ai) (mines ai) ({[cell]} ∪ safes ai)
              (knowledge (add_knowledge ai cell count))) as [Hm' Hs']; [done|done|auto with minesweeper|].
  split_and!; [simpl; auto with minesweeper|done|by apply on_board_difference|done].
Qed.

(** C10: every cell the agent records stays on its board.  If [moves_made],
    [mines], [safes] and every sentence's cells and conclusions are cells
    of the board, and the probed cell is on the board, then after
    [add_knowledge] they still are. *)
Theorem add_knowledge_bounded ai cell count :
  bounded ai -> in_bounds (height ai) (width ai) cell -> bounded (add_knowledge ai cell count).
Proof. apply bounded_add_knowledge. Qed.

(** A 2x2 board: after the probe at (1,1), probe (0,1) with count 1. *)
Lemma add_knowledge_bounded_witness :
  bounded ai_2x2 ∧ in_bounds (height ai_2x2) (width ai_2x2) (0,1)%Z ∧
  bounded (add_knowledge ai_2x2 (0,1)%Z 1).
Proof.
  assert (Hb : bounded ai_2x2) by decide_prop.
  assert (Hc : in_bounds (height ai_2x2) (width ai_2x2) (0,1)%Z) by decide_prop.
  exact (conj Hb (conj Hc (add_knowledge_bounded ai_2x2 (0,1)%Z 1 Hb Hc))).
Defined.

(** ** Every sentence has at most 8 cells *)

(** A sentence no larger than a cell's neighbourhood. *)
Definition at_most_8 (s : Sentence) : Prop := ⟪Sentence.cells s⟫ <= 8.

Lemma size_difference_le (X Y : gset Cell) : ⟪X ∖ Y⟫ <= ⟪X⟫.
Proof. apply subseteq_size, subseteq_difference_l. done. Qed.

Lemma at_most_8_add_knowledge ai cell count :
  Forall at_most_8 (knowledge ai) -> Forall at_most_8 (knowledge (add_knowledge ai cell count)).
Proof.
  intros HK. destruct (add_knowledge_unfold ai cell count) as [-> _]. apply Forall_map.
  apply (Forall_impl at_most_8); [|intros s Hs; unfold at_most_8 in *; rewrite Sentence.mark_cells_equiv; exact Hs].
  apply Forall_subset_resolution.
  { intros a b _ Hb _. unfold at_most_8 in *. cbn [Sentence.cells Sentence.init]. pose proof (size_difference_le (Sentence.cells b) (Sentence.cells a)). lia. }
  apply Forall_remove_empty, Forall_map.
  apply (Forall_impl at_most_8); [|intros s Hs; unfold at_most_8 in *; destruct (remove_cell_fields cell s) as [-> _];
                         pose proof (size_difference_le (Sentence.cells s) {[cell]}); lia].
  apply Forall_add_if_new; [done|]. unfold at_most_8; cbn [Sentence.cells Sentence.init].
  rewrite neighbour_cells_neighbours by set_solver.
  pose proof (size_difference_le (neighbours (height ai) (width ai) cell) ({[cell]} ∪ moves_made ai)).
  pose proof (Minesweeper.size_neighbours_le (height ai) (width ai) cell). lia.
Qed.

(** C20: every sentence of the knowledge base has at most 8 cells: the new
    sentence is part of a cell's neighbourhood, and every other sentence is
    a subset of an earlier one. *)
Theorem add_knowledge_at_most_8 ai cell count :
  Forall at_most_8 (knowledge ai) -> Forall at_most_8 (knowledge (add_knowledge ai cell count)).
Proof. apply at_most_8_add_knowledge. Qed.

Lemma add_knowledge_at_most_8_witness :
  Forall at_most_8 (knowledge ai_2x2) ∧ Forall at_most_8 (knowledge (add_knowledge ai_2x2 (0,1)%Z 1)).
Proof.
  assert (H : Forall at_most_8 (knowledge ai_2x2)) by (unfold at_most_8; decide_prop).
  exact (conj H (add_knowledge_at_most_8 ai_2x2 (0,1)%Z 1 H)).
Defined.

End Bounds.
