(* ===== verification/Soundness.v ===== *)
(** Soundness of the agent's inference against the board.
    - The agent sees the board only through the count the driver passes to
      [add_knowledge].  The class [MineOracle], with its law
      [MineOracleLaws], states what the agent relies on: the count reported
      for a cell is the number of planted mines among its in-bounds
      neighbours.
    - The board of [Board] is an instance, by [nearby_mines_spec], so
      [observe_sound] holds of a [Minesweeper] board and its
      [nearby_mines].
    - [ai_sound M ai] says:
      - every sentence of the knowledge base is true of the planted mines
        [M], and its recorded conclusions are right;
      - the agent's [mines] are mines;
      - its [safes] and [moves_made] are not mines.
    - [add_knowledge], [mark_mine] and [mark_safe] preserve it whenever they
      are fed true facts.
    - [observe_all] feeds a sequence of observations to [add_knowledge].
      Since soundness holds for every placement of mines [M], the agent's
      conclusions are entailed: they hold in every placement [consistent]
      with what it observed. *)

From S2P Require Import Prelude Sentence Board AI.
Open Scope minesweeper_scope.
Set Warnings "-clear-no-such-hyp".

Module Soundness.
Import MinesweeperAI.

(** The board as the agent's inference sees it. *)
Class MineOracle (B : Type) := {
  oracle_height : B -> Z;
  oracle_width : B -> Z;
  oracle_mines : B -> gset Cell;
  oracle_count : B -> Cell -> nat;
  oracle_wf : B -> Prop
}.

(** The count reported for a cell is the number of mines among its in-bounds
    neighbours. *)
Class MineOracleLaws (B : Type) `{!MineOracle B} := {
  oracle_count_spec : ∀ b c, oracle_wf b ->
    oracle_count b c = ⟪neighbours (oracle_height b) (oracle_width b) c ∩ oracle_mines b⟫
}.

#[global] Instance Minesweeper_oracle : MineOracle Minesweeper.Minesweeper := {
  oracle_height := Minesweeper.height;
  oracle_width := Minesweeper.width;
  oracle_mines := Minesweeper.mines;
  oracle_count := Minesweeper.nearby_mines;
  oracle_wf := Minesweeper.wf
}.

#[global] Instance Minesweeper_oracle_laws : MineOracleLaws Minesweeper.Minesweeper.
Proof. constructor. intros b c Hwf. by apply Minesweeper.nearby_mines_count. Qed.

(** The agent's state is true of the planted mines [M]. *)
Definition ai_sound (M : gset Cell) (ai : MinesweeperAI) : Prop :=
  Forall (Sentence.sound M) (knowledge ai) ∧ mines ai ⊆ M ∧ safes ai ## M ∧ moves_made ai ## M.

#[global] Instance ai_sound_dec M ai : Decision (ai_sound M ai).
Proof. unfold ai_sound. apply _. Defined.

(** ** Each step of [add_knowledge] keeps sentences true *)

Section WithMines.
Variable M : gset Cell.

Lemma remove_cell_sound c s : c ∉ M -> Sentence.sound M s -> Sentence.sound M (remove_cell c s).
Proof.
  intros Hc (Hh & Hm & Hs). unfold Sentence.sound, Sentence.holds in *.
  destruct (remove_cell_fields c s) as (-> & -> & -> & ->).
  split_and!; [|done|done]. unfold Sentence.holds in *.
  rewrite size_inter_difference_disjoint; [done|set_solver].
Qed.

Lemma resolve_sound a b :
  Sentence.sound M a -> Sentence.sound M b -> Sentence.cells a ⊆ Sentence.cells b ->
  Sentence.sound M (Sentence.init (Sentence.cells b ∖ Sentence.cells a)
                                  (Sentence.count b - Sentence.count a)).
Proof.
  intros [Ha _] [Hb _] Hab. split_and!; simpl; [|set_solver|set_solver].
  unfold Sentence.holds in *; simpl. rewrite size_inter_difference_subset by done.
  assert (⟪Sentence.cells a ∩ M⟫ <= ⟪Sentence.cells b ∩ M⟫) by (apply subseteq_size; set_solver).
  lia.
Qed.

Lemma new_sentence_sound h w mm cell count :
  cell ∈ mm -> mm ## M -> count = Z.of_nat ⟪neighbours h w cell ∩ M⟫ ->
  Sentence.sound M (Sentence.init (neighbour_cells h w mm cell) count).
Proof.
  intros Hc Hmm ->. split_and!; simpl; [|set_solver|set_solver].
  unfold Sentence.holds; simpl. rewrite neighbour_cells_neighbours by done.
  by rewrite size_inter_difference_disjoint.
Qed.

Lemma collect_sound ms ss K :
  Forall (Sentence.sound M) K -> ms ⊆ M -> ss ## M ->
  (collect ms ss K).1 ⊆ M ∧ (collect ms ss K).2 ## M.
Proof.
  intros HK Hms Hss. rewrite Forall_forall in HK. split.
  - intros x [Hx|(s & Hs & Hx)%Exists_exists]%collect_fst; [by apply Hms|].
    destruct (HK s Hs) as (_ & Hm & _). by apply Hm.
  - intros x [Hx|(s & Hs & Hx)%Exists_exists]%collect_snd; [by apply Hss|].
    destruct (HK s Hs) as (_ & _ & Hsf). by apply Hsf.
Qed.
End WithMines.

#[global] Hint Resolve remove_cell_sound resolve_sound collect_sound : minesweeper.

(** One observation preserves [ai_sound]; see [add_knowledge_sound]. *)
Lemma sound_add_knowledge M ai cell count :
  ai_sound M ai -> cell ∉ M ->
  count = Z.of_nat ⟪neighbours (height ai) (width ai) cell ∩ M⟫ ->
  ai_sound M (add_knowledge ai cell count).
Proof.
  intros (HK & Hm & Hs & Hmm) Hc Hcount.
  assert (Forall (Sentence.sound M) (knowledge (add_knowledge ai cell count))) as HK'.
  { destruct (add_knowledge_unfold ai cell count) as [-> _]. apply Forall_map.
    eapply Forall_impl; [|intros s Hs'; by apply Sentence.mark_cells_sound].
    apply Forall_subset_resolution; [auto with minesweeper|].
    apply Forall_remove_empty, Forall_map.
    eapply Forall_impl; [|intros s Hs'; by apply remove_cell_sound].
    apply Forall_add_if_new; [done|]. apply new_sentence_sound; [set_solver|set_solver|done]. }
  destruct (collect_sound M (mines ai) ({[cell]} ∪ safes ai) (knowledge (add_knowledge ai cell count)))
    as [Hm' Hs']; [done|done|set_solver|].
  split_and!; [done|done| |simpl; set_solver].
  cbn [safes add_knowledge]. unfold drop_moves_made.
  intros x Hx%elem_of_difference. destruct Hx as [Hx _]. by apply Hs'.
Qed.

(** C5: [add_knowledge] is sound.  If the agent's state is true of the
    planted mines [M], the probed cell is not a mine, and the count passed
    in is the number of mines among the cell's in-bounds neighbours, then the
    new state is true of [M] too. *)
Theorem add_knowledge_sound M ai cell count :
  ai_sound M ai -> cell ∉ M ->
  count = Z.of_nat ⟪neighbours (height ai) (width ai) cell ∩ M⟫ ->
  ai_sound M (add_knowledge ai cell count).
Proof. apply sound_add_knowledge. Qed.

(** Feeding the agent a board's own report keeps it sound, for any board
    type that satisfies the oracle laws. *)
Lemma oracle_observe_sound `{MineOracleLaws B} (b : B) ai cell :
  oracle_wf b -> height ai = oracle_height b -> width ai = oracle_width b ->
  ai_sound (oracle_mines b) ai -> cell ∉ oracle_mines b ->
  ai_sound (oracle_mines b) (add_knowledge ai cell (Z.of_nat (oracle_count b cell))).
Proof.
  intros Hwf Hh Hw Hs Hc. apply sound_add_knowledge; [done|done|].
  by rewrite oracle_count_spec, Hh, Hw.
Qed.

(** C6: the board and the agent together: on a [Minesweeper] board with its
    grid invariant, observing a safe cell with the count [nearby_mines]
    reports keeps the agent sound with respect to the board's mines. *)
Theorem observe_sound (g : Minesweeper.Minesweeper) ai cell :
  Minesweeper.wf g -> height ai = Minesweeper.height g -> width ai = Minesweeper.width g ->
  ai_sound (Minesweeper.mines g) ai -> cell ∉ Minesweeper.mines g ->
  ai_sound (Minesweeper.mines g)
    (add_knowledge ai cell (Z.of_nat (Minesweeper.nearby_mines g cell))).
Proof. exact (oracle_observe_sound g ai cell). Qed.

Lemma ai_mark_mine_sound M ai c : ai_sound M ai -> c ∈ M -> ai_sound M (mark_mine ai c).
Proof.
  intros (HK & Hm & Hs & Hmm) Hc. split_and!; simpl; try set_solver.
  apply Forall_map. eapply Forall_impl; [done|]. intros s Hss. apply Sentence.mark_mine_sound; auto.
Qed.

Lemma ai_mark_safe_sound M ai c : ai_sound M ai -> c ∉ M -> ai_sound M (mark_safe ai c).
Proof.
  intros (HK & Hm & Hs & Hmm) Hc. split_and!; simpl; try set_solver.
  apply Forall_map. eapply Forall_impl; [done|]. intros s Hss. apply Sentence.mark_safe_sound; auto.
Qed.

Lemma init_sound M h w n : ai_sound M (init h w n).
Proof. split_and!; simpl; [constructor|set_solver..]. Qed.

(** ** Entailment: the conclusions follow from the observations *)

(** A run of observations [(cell, count)] fed to [add_knowledge] in order. *)
Definition observe_all (ai : MinesweeperAI) (obs : list (Cell * Z)) : MinesweeperAI :=
  foldl (fun a o => add_knowledge a o.1 o.2) ai obs.

(** A placement [M] of mines agrees with the observations: no observed cell
    is a mine, and every count is the number of mines among the cell's
    in-bounds neighbours. *)
Definition consistent (h w : Z) (M : gset Cell) (obs : list (Cell * Z)) : Prop :=
  Forall (fun o => (o.1 ∉ M) ∧ o.2 = Z.of_nat ⟪neighbours h w o.1 ∩ M⟫) obs.

#[global] Instance consistent_dec h w M obs : Decision (consistent h w M obs).
Proof. unfold consistent. apply _. Defined.

Lemma sound_observe_all M ai obs :
  ai_sound M ai -> consistent (height ai) (width ai) M obs -> ai_sound M (observe_all ai obs).
Proof.
  revert ai. induction obs as [|o obs IH]; intros ai Hs Hc; [done|].
  apply Forall_cons in Hc as [[Ho Hn] Hc]. apply IH; [by apply sound_add_knowledge|exact Hc].
Qed.

(** C7: the agent only concludes what its observations entail.  After any
    sequence of observations, a cell in [mines] is a mine, and a cell in
    [safes] is not, in every placement of mines that agrees with the
    observations, not only in the board being played. *)
Theorem observations_entail h w n obs c :
  (c ∈ mines (observe_all (init h w n) obs) -> ∀ M, consistent h w M obs -> c ∈ M) ∧
  (c ∈ safes (observe_all (init h w n) obs) -> ∀ M, consistent h w M obs -> c ∉ M).
Proof.
  split; intros Hc M HM;
    destruct (sound_observe_all M (init h w n) obs (init_sound M h w n) HM) as (_ & Hm & Hs & _).
  - by apply Hm.
  - intros HcM. exact (Hs c Hc HcM).
Qed.

(** ** Witnesses, on a 1x3 board with one mine at (0,0) *)

Definition board_1x3 : Minesweeper.Minesweeper :=
  {| Minesweeper.height := 1; Minesweeper.width := 3; Minesweeper.mines := {[(0,0)%Z]};
     Minesweeper.board := [[true; false; false]]; Minesweeper.mines_found := ∅ |}.

Lemma add_knowledge_sound_witness :
  ai_sound {[(0,0)%Z]} (init 1 3 1) ∧ ((0%Z, 2%Z) ∉ ({[(0,0)%Z]} : gset Cell)) ∧
  (0%Z = Z.of_nat ⟪neighbours (height (init 1 3 1)) (width (init 1 3 1)) (0,2)%Z ∩ {[(0,0)%Z]}⟫) ∧
  ai_sound {[(0,0)%Z]} (add_knowledge (init 1 3 1) (0,2)%Z 0).
Proof.
  assert (H1 : ai_sound {[(0,0)%Z]} (init 1 3 1)) by decide_prop.
  assert (H2 : (0%Z, 2%Z) ∉ ({[(0,0)%Z]} : gset Cell)) by decide_prop.
  assert (H3 : 0%Z = Z.of_nat ⟪neighbours (height (init 1 3 1)) (width (init 1 3 1)) (0,2)%Z ∩ {[(0,0)%Z]}⟫)
    by (vm_compute; reflexivity).
  exact (conj H1 (conj H2 (conj H3 (add_knowledge_sound _ _ _ _ H1 H2 H3)))).
Defined.

Lemma observe_sound_witness :
  Minesweeper.wf board_1x3 ∧ height (init 1 3 1) = Minesweeper.height board_1x3 ∧
  width (init 1 3 1) = Minesweeper.width board_1x3 ∧
  ai_sound (Minesweeper.mines board_1x3) (init 1 3 1) ∧ ((0%Z, 2%Z) ∉ Minesweeper.mines board_1x3) ∧
  ai_sound (Minesweeper.mines board_1x3)
    (add_knowledge (init 1 3 1) (0,2)%Z (Z.of_nat (Minesweeper.nearby_mines board_1x3 (0,2)%Z))).
Proof.
  assert (H1 : Minesweeper.wf board_1x3) by decide_prop.
  assert (H2 : height (init 1 3 1) = Minesweeper.height board_1x3) by reflexivity.
  assert (H3 : width (init 1 3 1) = Minesweeper.width board_1x3) by reflexivity.
  assert (H4 : ai_sound (Minesweeper.mines board_1x3) (init 1 3 1)) by decide_prop.
  assert (H5 : (0%Z, 2%Z) ∉ Minesweeper.mines board_1x3) by decide_prop.
  exact (conj H1 (conj H2 (conj H3 (conj H4 (conj H5
           (observe_sound board_1x3 (init 1 3 1) (0,2)%Z H1 H2 H3 H4 H5)))))).
Defined.

(** On a 1x3 row, observing (0,2) with count 1 makes (0,1) a known mine in
    every placement that agrees with it. *)
Lemma observations_entail_witness :
  (0,1)%Z ∈ mines (observe_all (init 1 3 1) [((0,2)%Z, 1%Z)]) ∧
  consistent 1 3 {[(0,1)%Z]} [((0,2)%Z, 1%Z)] ∧ (0,1)%Z ∈ ({[(0,1)%Z]} : gset Cell).
Proof.
  assert (H1 : (0,1)%Z ∈ mines (observe_all (init 1 3 1) [((0,2)%Z, 1%Z)])) by decide_prop.
  assert (H2 : consistent 1 3 {[(0,1)%Z]} [((0,2)%Z, 1%Z)]) by decide_prop.
  exact (conj H1 (conj H2 (proj1 (observations_entail 1 3 1 _ (0,1)%Z) H1 _ H2))).
Defined.

End Soundness.
