(* ===== verification/Moves.v ===== *)
(** Move selection of [MinesweeperAI] (src/minesweeper.py lines 306-396):
    [make_safe_move] and [make_random_move].

    - Python's [set.pop()] returns an element chosen by the set's hash
      layout.  The class [SetPop] names that choice, and its laws say only
      that the element comes from the set.  The theorems hold for every
      lawful choice; [head_pop] is one instance, which the witnesses use.
    - [random.sample(s, 1)[0]] picks a uniformly random element.  The model
      returns the set the element is drawn from ([SampleFrom s]); sampling
      from an empty set is Python's [ValueError].
    - The other exceptions the code can raise are values of [PyError]:
      - [ZeroDivisionError]: line 375;
      - [KeyError]: line 391;
      - [AttributeError]: lines 375 and 386, when no sentence was selected.
    - Python's float divisions and comparisons of mine ratios are exact
      rationals ([Q]).  All numerators and denominators are at most the
      board's number of cells, and for small integers the float quotients
      order exactly as the rationals do.
    - The model follows [random.sample] as of Python 3.10, which still
      accepts a [set] (it warns since 3.9).  Python 3.11 raises
      [TypeError] instead.
    The theorems: [make_safe_move] returns an unprobed known-safe cell for
    every order of [set.pop()]; a random move never proposes a probed cell;
    [make_random_move_exceptions] names the cause of each exception it can
    raise; and [best_sentence_first_min] shows the ratio loop selects the
    first non-empty sentence of least ratio below 100. *)

From Stdlib Require Import QArith.
From S2P Require Import Prelude Sentence AI Bounds.
Open Scope minesweeper_scope.
Set Warnings "-clear-no-such-hyp".

Module Moves.
Import MinesweeperAI.

(** ** The choice made by [set.pop()] *)

Class SetPop := set_pop : gset Cell -> option Cell.

Class SetPopLaws `{!SetPop} := {
  set_pop_elem : ∀ S c, set_pop S = Some c -> c ∈ S;
  set_pop_empty : ∀ S, set_pop S = None -> S = ∅
}.

(** Popping the first element of [elements]. *)
#[global] Instance head_pop : SetPop := fun S => head (elements S).

#[global] Instance head_pop_laws : @SetPopLaws head_pop.
Proof.
  split; unfold set_pop, head_pop.
  - intros S c Hc. apply elem_of_elements. destruct (elements S); simplify_eq/=. by left.
  - intros S HS. apply leibniz_equiv, elements_empty_inv. by destruct (elements S).
Qed.

(** ** [make_safe_move], lines 306-321 *)

Section SafeMove.
Context `{!SetPop}.

(** [while 1: move = self.safes.pop(); if move not in self.moves_made: return move],
    with [except KeyError: return None] when [safes] runs empty.  Each
    iteration removes an element, so [S (size ss)] iterations suffice
    ([safe_move_loop_fuel]).  Returns the move and the remaining [safes]. *)
Fixpoint safe_move_loop (fuel : nat) (mm ss : gset Cell) : option Cell * gset Cell :=
  match fuel with
  | O => (None, ss)
  | S f =>
      match set_pop ss with
      | None => (None, ss)
      | Some c => if decide (c ∉ mm) then (Some c, ss ∖ {[c]}) else safe_move_loop f mm (ss ∖ {[c]})
      end
  end.

(** [make_safe_move]: the popped elements leave [self.safes]. *)
Definition make_safe_move (ai : MinesweeperAI) : option Cell * MinesweeperAI :=
  let r := safe_move_loop (S ⟪safes ai⟫) (moves_made ai) (safes ai) in
  (r.1, {| height := height ai; width := width ai; number_of_mines := number_of_mines ai;
           moves_made := moves_made ai; mines := mines ai; safes := r.2;
           knowledge := knowledge ai |}).

End SafeMove.

(** ** [make_random_move], lines 324-396 *)

Inductive PyError := ZeroDivisionError | KeyError | ValueError | AttributeError.

#[global] Instance PyError_eq_dec : EqDecision PyError.
Proof. solve_decision. Defined.

(** What [make_random_move] returns: [None], a uniformly random element of a
    non-empty set, or an uncaught exception. *)
Inductive Choice := NoMove | SampleFrom (S : gset Cell) | Raise (e : PyError).

#[global] Instance Choice_eq_dec : EqDecision Choice.
Proof. solve_decision. Defined.

(** [random.sample(s, 1)[0]]. *)
Definition sample (S : gset Cell) : Choice :=
  if decide (S = ∅) then Raise ValueError else SampleFrom S.

(** Lines 341-346 (and 369-373): the cells neither probed nor known mines. *)
Definition random_cells (ai : MinesweeperAI) : gset Cell :=
  foldl (fun acc c => if decide ((c ∉ moves_made ai) ∧ (c ∉ mines ai)) then {[c]} ∪ acc else acc)
        ∅ (all_cells (height ai) (width ai)).

(** [a < b] on the ratios. *)
Definition q_ltb (a b : Q) : bool := match Qcompare a b with Lt => true | _ => false end.

(** Lines 358-364, one iteration: a non-empty sentence with a smaller ratio
    [count / len(cells)] than [calculated_chance] becomes the selection. *)
Definition best_step (acc : Q * option Sentence.Sentence) (s : Sentence.Sentence)
  : Q * option Sentence.Sentence :=
  if decide (0 < ⟪Sentence.cells s⟫) then
    let r := Qdiv (inject_Z (Sentence.count s)) (inject_Z (Z.of_nat ⟪Sentence.cells s⟫)) in
    if q_ltb r acc.1 then (r, Some s) else acc
  else acc.

(** Lines 356-364: the first sentence with the least ratio among non-empty
    ones, starting from [calculated_chance = 100] and
    [calculated_sentence = object] ([None]). *)
Definition best_sentence (K : list Sentence.Sentence) : Q * option Sentence.Sentence :=
  foldl best_step (100%Q, None) K.

(** Lines 368-375: [random_chance], or the exception computing it raises. *)
Definition random_chance (ai : MinesweeperAI) (best : option Sentence.Sentence) (rc : gset Cell)
  : Q + PyError :=
  if decide (0 < ⟪rc⟫) then
    match best with
    | None => inr AttributeError
    | Some b =>
        let den := (Z.of_nat ⟪rc⟫ - Z.of_nat ⟪Sentence.cells b⟫)%Z in
        if decide (den = 0%Z) then inr ZeroDivisionError
        else inl (Qdiv (inject_Z (number_of_mines ai - Z.of_nat ⟪mines ai⟫)) (inject_Z den))
    end
  else inl 100%Q.

(** [make_random_move], lines 324-396.  The clean-up loop of lines 334-336
    is the same iteration as in [add_knowledge] and changes [knowledge]. *)
Definition make_random_move (ai : MinesweeperAI) : MinesweeperAI * Choice :=
  let K := remove_empty (knowledge ai) in
  let ai' := {| height := height ai; width := width ai; number_of_mines := number_of_mines ai;
                moves_made := moves_made ai; mines := mines ai; safes := safes ai;
                knowledge := K |} in
  let rc := random_cells ai in
  if decide (K = []) then (ai', sample rc)
  else
    let best := best_sentence K in
    match random_chance ai best.2 rc with
    | inr e => (ai', Raise e)
    | inl chance =>
        if decide (⟪rc⟫ = 0 ∧ Z.of_nat ⟪mines ai⟫ = number_of_mines ai) then (ai', NoMove)
        else if q_ltb best.1 chance then
          match best.2 with
          | None => (ai', Raise AttributeError)
          | Some b => (ai', sample (Sentence.cells b))
          end
        else
          match best.2 with
          | None => (ai', sample rc)
          | Some b => if decide (Sentence.cells b ⊆ rc) then (ai', sample (rc ∖ Sentence.cells b))
                      else (ai', Raise KeyError)
          end
    end.

(** ** Lemmas *)

Section SafeMoveProofs.
Context `{Hpop : SetPop} `{Hlaws : !SetPopLaws}.

Lemma safe_move_loop_spec f mm ss :
  ⟪ss⟫ < f ->
  match (safe_move_loop f mm ss).1 with
  | Some c => c ∈ ss ∧ (c ∉ mm) ∧ (c ∉ (safe_move_loop f mm ss).2) ∧ (safe_move_loop f mm ss).2 ⊆ ss
  | None => ss ⊆ mm ∧ (safe_move_loop f mm ss).2 = ∅
  end.
Proof.
  revert ss. induction f as [|f IH]; intros ss Hf; [lia|]. cbn [safe_move_loop].
  destruct (set_pop ss) as [c|] eqn:Hp.
  - apply set_pop_elem in Hp. case_decide as Hc; simpl; [set_solver|].
    assert (Hlt : ⟪ss ∖ {[c]}⟫ < f).
    { rewrite size_difference by set_solver. rewrite size_singleton.
      assert (Hne : ⟪ss⟫ ≠ 0) by (apply size_non_empty_iff; set_solver). lia. }
    specialize (IH (ss ∖ {[c]}) ltac:(done)).
    destruct (safe_move_loop f mm (ss ∖ {[c]})) as [[c'|] ss']; cbn [fst snd] in *.
    + destruct IH as (H1 & H2 & H3 & H4). split_and!; [set_solver|done|done|set_solver].
    + destruct IH as [H1 ->]. split; [set_solver|done].
  - apply set_pop_empty in Hp. subst. simpl. split; [apply empty_subseteq|done].
Qed.

End SafeMoveProofs.

Lemma random_cells_spec ai c :
  c ∈ random_cells ai <-> in_bounds (height ai) (width ai) c ∧ (c ∉ moves_made ai) ∧ (c ∉ mines ai).
Proof.
  unfold random_cells. rewrite foldl_insert_filter, elem_of_union, elem_of_list_to_set.
  rewrite list_elem_of_filter, all_cells_spec. set_solver.
Qed.

Lemma best_sentence_elem K b : (best_sentence K).2 = Some b -> b ∈ K.
Proof.
  unfold best_sentence.
  assert (∀ l acc, (∀ b0, acc.2 = Some b0 -> b0 ∈ K) -> (∀ s, s ∈ l -> s ∈ K) ->
            ∀ b0, (foldl best_step acc l).2 = Some b0 -> b0 ∈ K) as Hgen.
  { induction l as [|s l IH]; intros acc Hacc Hl; cbn [foldl]; [done|].
    apply IH; [|intros x Hx; apply Hl; by right].
    unfold best_step. case_decide; [|done]. simpl. destruct (q_ltb _ _); [|done].
    intros b0 [= <-]. apply Hl. by left. }
  apply Hgen; [done|done].
Qed.

Lemma sample_SampleFrom X S : sample X = SampleFrom S -> S = X ∧ X ≠ ∅.
Proof. unfold sample. intros Hs. case_decide; [done|]. by injection Hs as ->. Qed.

(** A safe move is a known-safe cell that was not probed. *)
Lemma make_safe_move_some `{Hlaws : SetPopLaws} ai c ai' :
  make_safe_move ai = (Some c, ai') -> c ∈ safes ai ∧ (c ∉ moves_made ai).
Proof.
  intros Hsafe. pose proof (safe_move_loop_spec (S ⟪safes ai⟫) (moves_made ai) (safes ai) ltac:(lia)) as Hs.
  assert (Hc : (safe_move_loop (S ⟪safes ai⟫) (moves_made ai) (safes ai)).1 = Some c)
    by (change ((make_safe_move ai).1 = Some c); by rewrite Hsafe).
  rewrite Hc in Hs. tauto.
Qed.

(** ** Theorems *)

(** C13: [make_safe_move] returns a cell of [safes] that is not in
    [moves_made], and removes it and every popped cell from [safes].  It
    returns [None] only when every cell of [safes] was already probed, and
    then [safes] ends up empty.  This holds for any order in which
    [set.pop()] yields elements; the [None] case also shows the loop never
    runs out of iterations. *)
Theorem make_safe_move_spec `{Hlaws : SetPopLaws} ai :
  match (make_safe_move ai).1 with
  | Some c => c ∈ safes ai ∧ (c ∉ moves_made ai) ∧ (c ∉ safes (make_safe_move ai).2) ∧
              safes (make_safe_move ai).2 ⊆ safes ai
  | None => safes ai ⊆ moves_made ai ∧ safes (make_safe_move ai).2 = ∅
  end.
Proof.
  unfold make_safe_move. cbn [fst snd safes].
  apply safe_move_loop_spec. lia.
Qed.

Lemma make_random_move_cases ai S :
  (make_random_move ai).2 = SampleFrom S ->
  S ≠ ∅ ∧
  (S = random_cells ai ∨
   ∃ b, b ∈ remove_empty (knowledge ai) ∧ (S = Sentence.cells b ∨ S = random_cells ai ∖ Sentence.cells b)).
Proof.
  unfold make_random_move. cbn zeta.
  destruct (decide (remove_empty (knowledge ai) = [])) as [_|_].
  { intros [-> Hne]%sample_SampleFrom. split; [done|]. by left. }
  destruct (random_chance _ _ _) as [chance|e]; [|done]. simpl.
  case_decide; [done|].
  destruct (best_sentence (remove_empty (knowledge ai))).2 as [b|] eqn:Hb;
    [apply best_sentence_elem in Hb|].
  - destruct (q_ltb _ _).
    + intros [-> Hne]%sample_SampleFrom. split; [done|]. right. exists b. by split; [|left].
    + case_decide; [|done]. intros [-> Hne]%sample_SampleFrom. split; [done|].
      right. exists b. by split; [|right].
  - destruct (q_ltb _ _); [done|]. intros [-> Hne]%sample_SampleFrom. split; [done|]. by left.
Qed.

(** A random guess is an unknown cell or a cell of a remaining sentence. *)
Lemma make_random_move_sample ai S c :
  (make_random_move ai).2 = SampleFrom S -> c ∈ S ->
  c ∈ random_cells ai ∨ ∃ b, b ∈ remove_empty (knowledge ai) ∧ c ∈ Sentence.cells b.
Proof.
  intros Hs Hc. destruct (make_random_move_cases ai S Hs) as [_ [->|(b & Hb & [->| ->])]]; [by left|..].
  - right. by exists b.
  - left. by apply elem_of_difference in Hc as [Hc _].
Qed.

(** C14: a random move never proposes a probed cell: whenever
    [make_random_move] samples from a set, the set is non-empty and disjoint
    from [moves_made], provided no sentence mentions a probed cell. *)
Theorem make_random_move_unprobed ai S :
  fresh ai -> (make_random_move ai).2 = SampleFrom S -> S ≠ ∅ ∧ S ## moves_made ai.
Proof.
  intros Hf Hs. split; [apply (make_random_move_cases ai S Hs)|]. intros c Hc.
  destruct (make_random_move_sample ai S c Hs Hc) as [Hc'%random_cells_spec|(b & Hb & Hcb)]; [tauto|].
  apply (Forall_remove_empty (fun s => Sentence.cells s ## moves_made ai)) in Hf.
  rewrite Forall_forall in Hf. by apply (Hf b).
Qed.

(** C15: with no sentence left after the clean-up, the random move is drawn
    uniformly from the board's cells that are neither probed nor known
    mines, and raises [ValueError] when there is none. *)
Theorem make_random_move_no_knowledge ai :
  remove_empty (knowledge ai) = [] ->
  (make_random_move ai).2 =
    (if decide (random_cells ai = ∅) then Raise ValueError else SampleFrom (random_cells ai)) ∧
  (∀ c, c ∈ random_cells ai <-> in_bounds (height ai) (width ai) c ∧ (c ∉ moves_made ai) ∧ (c ∉ mines ai)).
Proof.
  intros HK. split; [|apply random_cells_spec].
  unfold make_random_move. cbn zeta. by rewrite decide_True.
Qed.

(** ** The exceptions of [make_random_move] *)

Lemma q_ltb_true a b : q_ltb a b = true <-> (a < b)%Q.
Proof. unfold q_ltb. rewrite Qlt_alt. destruct (a ?= b)%Q; naive_solver. Qed.

(** The mine ratio of a sentence whose count is at most its size is below
    the initial [calculated_chance] of 100. *)
Lemma ratio_lt_100 (c l : Z) : (0 < l)%Z -> (c <= l)%Z -> (Qdiv (inject_Z c) (inject_Z l) < 100)%Q.
Proof.
  intros Hl Hc. apply Qlt_shift_div_r; [change 0%Q with (inject_Z 0); rewrite <- Zlt_Qlt; lia|].
  change 100%Q with (inject_Z 100). rewrite <- inject_Z_mult, <- Zlt_Qlt. lia.
Qed.

(** Once a sentence is selected, the selection stays a sentence. *)
Lemma best_foldl_none K acc : (foldl best_step acc K).2 = None -> acc.2 = None.
Proof.
  revert acc. induction K as [|s K IH]; intros acc H; [done|]. cbn [foldl] in H.
  apply IH in H. unfold best_step in H. case_decide; [|done]. by destruct (q_ltb _ _).
Qed.

(** No sentence is selected only if every sentence is empty or has a ratio
    of at least 100. *)
Lemma best_sentence_none K :
  (best_sentence K).2 = None ->
  Forall (fun s => ⟪Sentence.cells s⟫ = 0 ∨
    q_ltb (Qdiv (inject_Z (Sentence.count s)) (inject_Z (Z.of_nat ⟪Sentence.cells s⟫))) 100 = false) K.
Proof.
  unfold best_sentence. induction K as [|s K IH]; intros H; constructor; cbn [foldl] in H.
  - pose proof (best_foldl_none K _ H) as H0. unfold best_step in *. case_decide; [|left; lia].
    right. by destruct (q_ltb _ _).
  - apply IH. pose proof (best_foldl_none K _ H) as H0. unfold best_step in *.
    case_decide; [|done]. by destruct (q_ltb _ _).
Qed.

(** The selected sentence is not empty. *)
Lemma best_sentence_cells K b : (best_sentence K).2 = Some b -> 0 < ⟪Sentence.cells b⟫.
Proof.
  unfold best_sentence.
  assert (∀ l acc, (∀ b0, acc.2 = Some b0 -> 0 < ⟪Sentence.cells b0⟫) ->
            ∀ b0, (foldl best_step acc l).2 = Some b0 -> 0 < ⟪Sentence.cells b0⟫) as Hgen.
  { induction l as [|s l IH]; intros acc Hacc; cbn [foldl]; [done|]. apply IH.
    unfold best_step. case_decide; [|done]. destruct (q_ltb _ _); [|done]. by intros b0 [= <-]. }
  by apply Hgen.
Qed.

(** The ratio [i.count / len(i.cells)] that lines 360-361 compare. *)
Definition ratio (s : Sentence.Sentence) : Q :=
  Qdiv (inject_Z (Sentence.count s)) (inject_Z (Z.of_nat ⟪Sentence.cells s⟫)).

(** One iteration of the loop either takes [s] or keeps the accumulator. *)
Lemma best_step_cases acc s :
  (best_step acc s = (ratio s, Some s) ∧ 0 < ⟪Sentence.cells s⟫ ∧ (ratio s < acc.1)%Q) ∨
  (best_step acc s = acc ∧ (⟪Sentence.cells s⟫ = 0 ∨ (acc.1 <= ratio s)%Q)).
Proof.
  unfold best_step. case_decide; [|right; split; [done|left; lia]].
  destruct (q_ltb _ _) eqn:Hq; [left; by apply q_ltb_true in Hq|].
  right. split; [done|right]. apply Qnot_lt_le. rewrite <- q_ltb_true. unfold ratio. by rewrite Hq.
Qed.

Lemma best_foldl_some K acc r b :
  foldl best_step acc K = (r, Some b) ->
  (acc = (r, Some b) ∧ Forall (fun s => ⟪Sentence.cells s⟫ = 0 ∨ (r <= ratio s)%Q) K) ∨
  (∃ K1 K2, K = K1 ++ b :: K2 ∧ 0 < ⟪Sentence.cells b⟫ ∧ r = ratio b ∧ (ratio b < acc.1)%Q ∧
     Forall (fun s => ⟪Sentence.cells s⟫ = 0 ∨ (ratio b < ratio s)%Q) K1 ∧
     Forall (fun s => ⟪Sentence.cells s⟫ = 0 ∨ (ratio b <= ratio s)%Q) K2).
Proof.
  revert acc. induction K as [|s K IH]; intros acc H; cbn [foldl] in H; [by left|].
  destruct (IH _ H) as [[Hacc HK]|(K1 & K2 & -> & Hb & -> & Hlt & H1 & H2)];
    destruct (best_step_cases acc s) as [(Hs & Hsz & Hsl)|(Hs & Hsk)].
  - rewrite Hs in Hacc. simplify_eq. right. exists [], K. split_and!; auto.
  - rewrite Hs in Hacc. subst acc. left. split; [done|]. by constructor.
  - right. exists (s :: K1), K2. rewrite Hs in Hlt. cbn [fst] in Hlt.
    split_and!; [done|done|done|by eapply Qlt_trans|by constructor; [right|]|done].
  - right. exists (s :: K1), K2. rewrite Hs in Hlt.
    split_and!; [done|done|done|done| |done]. constructor; [|done].
    destruct Hsk as [|Hle]; [by left|right]. by eapply Qlt_le_trans.
Qed.

Lemma best_foldl_keep K acc :
  Forall (fun s => ⟪Sentence.cells s⟫ = 0 ∨ (acc.1 <= ratio s)%Q) K -> foldl best_step acc K = acc.
Proof.
  revert acc. induction K as [|s K IH]; intros acc HK; [done|]. apply Forall_cons in HK as [Hs HK].
  cbn [foldl]. destruct (best_step_cases acc s) as [(_ & Hsz & Hsl)|(-> & _)]; [|by apply IH].
  exfalso. destruct Hs as [|Hle]; [lia|]. by apply (Qle_not_lt _ _ Hle).
Qed.

Lemma best_foldl_lt K acc q :
  Forall (fun s => ⟪Sentence.cells s⟫ = 0 ∨ (q < ratio s)%Q) K -> (q < acc.1)%Q ->
  (q < (foldl best_step acc K).1)%Q.
Proof.
  revert acc. induction K as [|s K IH]; intros acc HK Hq; [done|]. apply Forall_cons in HK as [Hs HK].
  cbn [foldl]. apply IH; [done|].
  destruct (best_step_cases acc s) as [(-> & Hsz & _)|(-> & _)]; [|done].
  destruct Hs; [lia|done].
Qed.

(** C23: the loop of lines 356-364 selects the first non-empty sentence of
    least mine ratio, provided that ratio is below the initial
    [calculated_chance] of 100: strictly smaller than the ratio of every
    non-empty sentence before it, and no larger than any after it. *)
Theorem best_sentence_first_min K b r :
  best_sentence K = (r, Some b) <->
  ∃ K1 K2, K = K1 ++ b :: K2 ∧ 0 < ⟪Sentence.cells b⟫ ∧ r = ratio b ∧ (ratio b < 100)%Q ∧
    Forall (fun s => ⟪Sentence.cells s⟫ = 0 ∨ (ratio b < ratio s)%Q) K1 ∧
    Forall (fun s => ⟪Sentence.cells s⟫ = 0 ∨ (ratio b <= ratio s)%Q) K2.
Proof.
  split.
  - intros H. by destruct (best_foldl_some K _ r b H) as [[? _]|?].
  - intros (K1 & K2 & -> & Hb & -> & H100 & H1 & H2). unfold best_sentence.
    rewrite foldl_app. cbn [foldl].
    destruct (best_step_cases (foldl best_step (100%Q, None) K1) b) as [(-> & _)|(_ & [|Hle])];
      [by apply best_foldl_keep|lia|].
    exfalso. apply (Qle_not_lt _ _ Hle). by apply best_foldl_lt.
Qed.

(** The branch conditions of each exception, read off the code. *)
Lemma make_random_move_raise ai e :
  (make_random_move ai).2 = Raise e ->
  let K := remove_empty (knowledge ai) in let best := (best_sentence K).2 in
  (e = ValueError ∧ (random_cells ai = ∅ ∨
     ∃ b, best = Some b ∧ (Sentence.cells b = ∅ ∨ random_cells ai ∖ Sentence.cells b = ∅))) ∨
  (e = AttributeError ∧ K ≠ [] ∧ best = None) ∨
  (e = ZeroDivisionError ∧ ∃ b, best = Some b ∧ 0 < ⟪random_cells ai⟫ ∧
     ⟪random_cells ai⟫ = ⟪Sentence.cells b⟫) ∨
  (e = KeyError ∧ ∃ b, best = Some b ∧ ¬ (Sentence.cells b ⊆ random_cells ai)).
Proof.
  unfold make_random_move, random_chance, sample. cbn zeta.
  repeat (case_decide || case_match); intros Hraise; simplify_eq/=; eauto 10.
  all: right; right; left; split; [done|]; eexists; split_and!; [done|lia|lia].
Qed.

(** C16: the causes of [make_random_move]'s exceptions.  In a state whose
    sentences avoid probed cells, lie on the board and have counts at most
    their sizes:
    - [AttributeError] only when the knowledge base holds nothing but
      empty sentences;
    - [ZeroDivisionError] only when the best sentence has as many cells as
      there are unknown cells;
    - [KeyError] only when the best sentence contains a known mine;
    - [ValueError] only when there is nothing left to sample: no unknown
      cell, or no unknown cell outside the best sentence. *)
Theorem make_random_move_exceptions ai :
  fresh ai -> Bounds.bounded ai ->
  Forall (fun s => Sentence.count s <= Z.of_nat ⟪Sentence.cells s⟫)%Z (knowledge ai) ->
  ((make_random_move ai).2 = Raise AttributeError ->
     remove_empty (knowledge ai) ≠ [] ∧
     Forall (fun s => Sentence.cells s = ∅) (remove_empty (knowledge ai))) ∧
  ((make_random_move ai).2 = Raise ZeroDivisionError ->
     ∃ b, (best_sentence (remove_empty (knowledge ai))).2 = Some b ∧
          0 < ⟪random_cells ai⟫ ∧ ⟪random_cells ai⟫ = ⟪Sentence.cells b⟫) ∧
  ((make_random_move ai).2 = Raise KeyError ->
     ∃ b c, (best_sentence (remove_empty (knowledge ai))).2 = Some b ∧
            c ∈ Sentence.cells b ∧ c ∈ mines ai) ∧
  ((make_random_move ai).2 = Raise ValueError ->
     random_cells ai = ∅ ∨
     ∃ b, (best_sentence (remove_empty (knowledge ai))).2 = Some b ∧ random_cells ai ⊆ Sentence.cells b).
Proof.
  intros Hf Hb Hc.
  assert (HK : Forall (fun s => (Sentence.cells s ## moves_made ai ∧
                                 Bounds.sentence_on_board (height ai) (width ai) s) ∧
                                (Sentence.count s <= Z.of_nat ⟪Sentence.cells s⟫)%Z)
                      (remove_empty (knowledge ai)))
    by (destruct Hb as (_ & _ & _ & Hb); apply Forall_remove_empty, Forall_and; split;
        [apply Forall_and|]; done).
  rewrite Forall_forall in HK.
  split_and!; intros H%make_random_move_raise; simpl in H;
    destruct H as [(? & H)|[(? & H)|[(? & H)|(? & H)]]]; try done.
  - destruct H as [HK0 Hnone]. split; [done|]. apply Forall_forall. intros s Hs.
    pose proof (best_sentence_none _ Hnone) as Hall. rewrite Forall_forall in Hall.
    destruct (Hall s Hs) as [Hz0|Hq]; [by apply leibniz_equiv, size_empty_inv|].
    destruct (HK s Hs) as [_ Hcs]. destruct (decide (⟪Sentence.cells s⟫ = 0)) as [Hz|Hz];
      [by apply leibniz_equiv, size_empty_inv|].
    rewrite <- not_true_iff_false, q_ltb_true in Hq. destruct Hq. apply ratio_lt_100; lia.
  - destruct H as (b & Hbest & Hsub).
    pose proof (best_sentence_elem _ _ Hbest) as Hbin. destruct (HK b Hbin) as [[Hdis (Hon & _)] _].
    destruct (decide (Exists (fun c => c ∉ random_cells ai) (elements (Sentence.cells b)))) as [Hex|Hex].
    + apply Exists_exists in Hex as (c & Hc' & Hnot). apply elem_of_elements in Hc'.
      exists b, c. split_and!; [done|done|].
      destruct (decide (c ∈ mines ai)) as [Hm|Hm]; [done|]. destruct Hnot. apply random_cells_spec.
      split_and!; [by apply Hon| |done]. intros Hmm. exact (Hdis c Hc' Hmm).
    + destruct Hsub. intros c Hc'. destruct (decide (c ∈ random_cells ai)) as [Hin|Hin]; [done|].
      destruct Hex. apply Exists_exists. exists c. by rewrite elem_of_elements.
  - destruct H as [H|(b & Hbest & [Hemp|Hemp])]; [by left| |].
    + apply best_sentence_cells in Hbest. rewrite Hemp, size_empty in Hbest. lia.
    + right. exists b. split; [done|]. intros c Hc'. destruct (decide (c ∈ Sentence.cells b)); [done|].
      assert (c ∈ random_cells ai ∖ Sentence.cells b) as Hd by (by apply elem_of_difference).
      rewrite Hemp in Hd. by apply not_elem_of_empty in Hd.
Qed.

(** ** Witnesses *)

(** A 1x5 board with its mine at (0,4): (0,0) is probed and reports 0, so
    (0,1) is known safe. *)
Definition ai_1x5 : MinesweeperAI := add_knowledge (init 1 5 1) (0,0)%Z 0.

Lemma make_safe_move_spec_witness :
  @SetPopLaws head_pop ∧
  match (make_safe_move ai_1x5).1 with
  | Some c => c ∈ safes ai_1x5 ∧ (c ∉ moves_made ai_1x5) ∧ (c ∉ safes (make_safe_move ai_1x5).2) ∧
              safes (make_safe_move ai_1x5).2 ⊆ safes ai_1x5
  | None => safes ai_1x5 ⊆ moves_made ai_1x5 ∧ safes (make_safe_move ai_1x5).2 = ∅
  end.
Proof. exact (conj head_pop_laws (make_safe_move_spec ai_1x5)). Defined.

Lemma make_random_move_unprobed_witness :
  fresh ai_1x5 ∧ (make_random_move ai_1x5).2 = SampleFrom {[(0,1)%Z]} ∧
  ({[(0,1)%Z]} ≠ (∅ : gset Cell) ∧ {[(0,1)%Z]} ## moves_made ai_1x5).
Proof.
  assert (H1 : fresh ai_1x5) by decide_prop.
  assert (H2 : (make_random_move ai_1x5).2 = SampleFrom {[(0,1)%Z]}) by (vm_compute; reflexivity).
  exact (conj H1 (conj H2 (make_random_move_unprobed ai_1x5 _ H1 H2))).
Defined.

Lemma make_random_move_no_knowledge_witness :
  remove_empty (knowledge (init 2 2 1)) = [] ∧
  ((make_random_move (init 2 2 1)).2 =
    (if decide (random_cells (init 2 2 1) = ∅) then Raise ValueError
     else SampleFrom (random_cells (init 2 2 1))) ∧
   (∀ c, c ∈ random_cells (init 2 2 1) <->
      in_bounds (height (init 2 2 1)) (width (init 2 2 1)) c ∧
      (c ∉ moves_made (init 2 2 1)) ∧ (c ∉ mines (init 2 2 1)))).
Proof.
  assert (H : remove_empty (knowledge (init 2 2 1)) = []) by reflexivity.
  exact (conj H (make_random_move_no_knowledge (init 2 2 1) H)).
Defined.

(** A 1x4 board with its mine at (0,1): the first probe, at (0,0), reports
    1, which makes (0,1) a known mine. *)
Definition ai_1x4 : MinesweeperAI := add_knowledge (init 1 4 1) (0,0)%Z 1.

Lemma make_random_move_exceptions_witness :
  fresh ai_1x4 ∧ Bounds.bounded ai_1x4 ∧
  Forall (fun s => Sentence.count s <= Z.of_nat ⟪Sentence.cells s⟫)%Z (knowledge ai_1x4) ∧
  (make_random_move ai_1x4).2 = Raise KeyError ∧
  ∃ b c, (best_sentence (remove_empty (knowledge ai_1x4))).2 = Some b ∧
         c ∈ Sentence.cells b ∧ c ∈ mines ai_1x4.
Proof.
  assert (H1 : fresh ai_1x4) by decide_prop.
  assert (H2 : Bounds.bounded ai_1x4) by decide_prop.
  assert (H3 : Forall (fun s => Sentence.count s <= Z.of_nat ⟪Sentence.cells s⟫)%Z (knowledge ai_1x4))
    by decide_prop.
  assert (H4 : (make_random_move ai_1x4).2 = Raise KeyError) by (vm_compute; reflexivity).
  exact (conj H1 (conj H2 (conj H3 (conj H4
           (proj1 (proj2 (proj2 (make_random_move_exceptions ai_1x4 H1 H2 H3))) H4))))).
Defined.

End Moves.
