(* ===== verification/Output.v ===== *)
(** What the program writes as text, besides the board's [print]
    (src/minesweeper.py):
    - [Sentence.__str__] (lines 106-107), [f"{self.cells} = {self.count}"]:
      the [repr] of a Python set of cells, then [" = "], then [str] of the
      count.  A set's iteration order depends on its hash table, not on its
      value, so [__str__] takes the order as an argument; the theorems
      quantify over every order that lists the set's elements.  [str] of an
      int is Stdlib's decimal printer, which writes Python's text: no
      leading zeros, a leading ["-"] for a negative number.
    - The [print] of [add_knowledge] (lines 301-302) and the one in the
      loop of [make_random_move] (lines 356-364), as the lines they write.

    [of_text] reads a sentence's text back.  [str_roundtrip]: the text
    determines the sentence as [__eq__] sees it, whatever the order. *)

From Stdlib Require Import String Ascii Decimal DecimalString DecimalZ.
From S2P Require Import Prelude Sentence Render AI Soundness Moves.
Open Scope minesweeper_scope.
Set Warnings "-clear-no-such-hyp".

Module Output.
Import MinesweeperAI.
Open Scope string_scope.

(** ** [Sentence.__str__] *)

(** [str(z)] for a Python int. *)
Definition str_int (z : Z) : string := NilZero.string_of_int (Z.to_int z).

(** [repr((i, j))]. *)
Definition repr_cell (c : Cell) : string :=
  "(" ++ str_int c.1 ++ ", " ++ str_int c.2 ++ ")".

(** [sep.join(items)]. *)
Fixpoint join (sep : string) (items : list string) : string :=
  match items with
  | [] => ""
  | [x] => x
  | x :: xs => x ++ sep ++ join sep xs
  end.

(** [repr] of a set whose iteration yields [order]: [set()] when it is
    empty, else its elements' [repr]s joined by [", "] between braces. *)
Definition repr_set (order : list Cell) : string :=
  match order with
  | [] => "set()"
  | _ => "{" ++ join ", " (map repr_cell order) ++ "}"
  end.

(** [Sentence.__str__], lines 106-107, for a set that iterates in [order]. *)
Definition __str__ (order : list Cell) (s : Sentence.Sentence) : string :=
  repr_set order ++ " = " ++ str_int (Sentence.count s).

(** ** Reading the text back *)

(** [s] without its prefix [p], if it starts with [p]. *)
Fixpoint strip_prefix (p s : string) : option string :=
  match p, s with
  | EmptyString, _ => Some s
  | String a p', String b s' => if Ascii.eqb a b then strip_prefix p' s' else None
  | _, _ => None
  end.

(** The longest prefix of decimal digits, and the rest. *)
Fixpoint read_digits (s : string) : uint * string :=
  match s with
  | EmptyString => (Nil, EmptyString)
  | String a s' =>
      let '(u, r) := read_digits s' in
      match uint_of_char a (Some u) with
      | Some u' => (u', r)
      | None => (Nil, s)
      end
  end.

(** An int: an optional ["-"] and at least one digit. *)
Definition read_int (s : string) : option (Z * string) :=
  let '(neg, s1) := match strip_prefix "-" s with Some s1 => (true, s1) | None => (false, s) end in
  match read_digits s1 with
  | (Nil, _) => None
  | (u, r) => Some (Z.of_int (if neg then Neg u else Pos u), r)
  end.

Definition read_cell (s : string) : option (Cell * string) :=
  s1 ← strip_prefix "(" s; '(i, s2) ← read_int s1; s3 ← strip_prefix ", " s2;
  '(j, s4) ← read_int s3; s5 ← strip_prefix ")" s4; Some ((i, j), s5).

(** The cells of a non-empty set up to its closing brace; [fuel] bounds
    the number of cells. *)
Fixpoint read_items (fuel : nat) (s : string) : option (list Cell * string) :=
  match fuel with
  | O => None
  | S f =>
      '(c, s1) ← read_cell s;
      match strip_prefix "}" s1 with
      | Some s2 => Some ([c], s2)
      | None => s2 ← strip_prefix ", " s1; '(cs, s3) ← read_items f s2; Some (c :: cs, s3)
      end
  end.

Definition read_set (s : string) : option (list Cell * string) :=
  match strip_prefix "set()" s with
  | Some r => Some ([], r)
  | None => s1 ← strip_prefix "{" s; read_items (String.length s1) s1
  end.

(** The cells in the order written, and the count. *)
Definition parse_sentence (txt : string) : option (list Cell * Z) :=
  '(cs, r) ← read_set txt; r1 ← strip_prefix " = " r; '(n, r2) ← read_int r1;
  match r2 with EmptyString => Some (cs, n) | _ => None end.

(** The sentence a text stands for, as [Sentence(cells, count)] builds it. *)
Definition of_text (txt : string) : option Sentence.Sentence :=
  (fun '(cs, n) => Sentence.init (list_to_set cs) n) <$> parse_sentence txt.

(** ** The [print] calls of the agent *)

Definition all_mines_found_msg : string := "All mines found!!".
Definition no_cells_msg : string := "no remaining unexplored cells".

(** Lines 301-302, at the end of [add_knowledge]: [if len(self.mines) == 8:
    print("All mines found!!")], on the state the call leaves. *)
Definition add_knowledge_stdout (ai : MinesweeperAI) (cell : Cell) (count : Z) : list string :=
  if decide (⟪mines (add_knowledge ai cell count)⟫ = 8) then [all_mines_found_msg] else [].

(** Lines 356-364 of [make_random_move]: after the clean-up, the loop over
    [knowledge] prints a line for each sentence without cells. *)
Definition best_sentence_stdout (K : list Sentence.Sentence) : list string :=
  foldl (fun out s => if decide (0 < ⟪Sentence.cells s⟫) then out else (out ++ [no_cells_msg])%list) [] K.

(** The lines [make_random_move] writes: none when the cleaned knowledge is
    empty (lines 338-344 return first). *)
Definition make_random_move_stdout (ai : MinesweeperAI) : list string :=
  let K := remove_empty (knowledge ai) in
  if decide (K = []) then [] else best_sentence_stdout K.

(** ** Lemmas *)

#[local] Arguments String.append _ _ : simpl nomatch.

(** A text that does not go on with a digit. *)
Definition no_digit (r : string) : Prop :=
  match r with EmptyString => True | String a _ => ∀ u, uint_of_char a (Some u) = None end.

Lemma strip_prefix_app p r : strip_prefix p (p ++ r) = Some r.
Proof.
  induction p as [|a p IH]; simpl; [by destruct r|]. by rewrite Ascii.eqb_refl.
Qed.

Lemma read_digits_app u r :
  no_digit r -> read_digits (NilEmpty.string_of_uint u ++ r) = (u, r).
Proof.
  intros Hr. induction u; cbn [NilEmpty.string_of_uint String.append read_digits];
    try (rewrite IHu; reflexivity).
  destruct r as [|a r]; cbn [read_digits]; [done|].
  destruct (read_digits r). by rewrite Hr.
Qed.

Lemma read_uint_app (u : uint) (neg : bool) r :
  no_digit r ->
  match read_digits (NilZero.string_of_uint u ++ r) with
  | (Nil, _) => None
  | (u', r') => Some (Z.of_int (if neg then Neg u' else Pos u'), r')
  end = Some (Z.of_int (if neg then Neg u else Pos u), r).
Proof.
  intros Hr. destruct u; cbn [NilZero.string_of_uint];
    rewrite ?(read_digits_app (D0 Nil)), ?read_digits_app by done; by destruct neg.
Qed.

Lemma read_int_app z r : no_digit r -> read_int (str_int z ++ r) = Some (z, r).
Proof.
  intros Hr. unfold read_int, str_int. pose proof (of_to z) as Hz.
  destruct (Z.to_int z) as [u|u]; rewrite <- Hz; cbn [NilZero.string_of_int].
  - assert (Hs : strip_prefix "-" (NilZero.string_of_uint u ++ r) = None) by (by destruct u).
    rewrite Hs. exact (read_uint_app u false r Hr).
  - cbn [String.append strip_prefix]. rewrite Ascii.eqb_refl.
    exact (read_uint_app u true r Hr).
Qed.

Lemma read_cell_app c r : read_cell (repr_cell c ++ r) = Some (c, r).
Proof.
  destruct c as [i j]. unfold read_cell, repr_cell. rewrite !Render.append_assoc_str.
  rewrite strip_prefix_app. cbn [mbind option_bind].
  rewrite read_int_app by (intros u; done). cbn [mbind option_bind].
  rewrite strip_prefix_app. cbn [mbind option_bind].
  rewrite read_int_app by (intros u; done). cbn [mbind option_bind].
  by rewrite strip_prefix_app.
Qed.

Lemma join_cons sep x y ys : join sep (x :: y :: ys) = x ++ sep ++ join sep (y :: ys).
Proof. done. Qed.

Lemma length_join_items c cs r :
  S (length cs) <= String.length (join ", " (map repr_cell (c :: cs)) ++ "}" ++ r).
Proof.
  revert c. induction cs as [|d cs IH]; intros c.
  - cbn [map join]. unfold repr_cell. rewrite !Render.length_append_str. cbn [String.length length]. lia.
  - specialize (IH d). rewrite map_cons, map_cons, join_cons, <- map_cons.
    rewrite !Render.append_assoc_str, !Render.length_append_str in *. cbn [length String.length] in *. lia.
Qed.

Lemma read_items_app f c cs r :
  length cs < f ->
  read_items f (join ", " (map repr_cell (c :: cs)) ++ "}" ++ r) = Some (c :: cs, r).
Proof.
  revert f c. induction cs as [|d cs IH]; intros [|f] c Hf; cbn [length] in Hf; try lia;
    cbn [read_items].
  - cbn [map join]. rewrite read_cell_app. done.
  - rewrite map_cons, map_cons, join_cons, <- map_cons.
    rewrite !Render.append_assoc_str, read_cell_app. cbn [mbind option_bind].
    cbn [strip_prefix String.append Ascii.eqb Bool.eqb].
    change (String "}" r) with ("}" ++ r). cbn [mbind option_bind].
    rewrite IH by lia. done.
Qed.

Lemma parse_sentence_str order s :
  parse_sentence (__str__ order s) = Some (order, Sentence.count s).
Proof.
  unfold parse_sentence, __str__, read_set, repr_set.
  destruct order as [|c cs].
  - rewrite strip_prefix_app. cbn [mbind option_bind].
    rewrite strip_prefix_app. cbn [mbind option_bind].
    rewrite <- (Render.append_empty_str (str_int _)), read_int_app by done. done.
  - rewrite !Render.append_assoc_str.
    assert (Hset : ∀ x, strip_prefix "set()" ("{" ++ x) = None) by done.
    rewrite Hset, strip_prefix_app. cbn [mbind option_bind].
    rewrite read_items_app by (apply (length_join_items c cs)). cbn [mbind option_bind].
    rewrite strip_prefix_app. cbn [mbind option_bind].
    rewrite <- (Render.append_empty_str (str_int _)), read_int_app by done. done.
Qed.

(** C31: [Sentence.__str__] loses nothing that [__eq__] compares: whatever
    order the set iterates in, reading the text back gives
    [Sentence(cells, count)], a sentence equal to the printed one. *)
Theorem str_roundtrip order s :
  order ≡ₚ elements (Sentence.cells s) ->
  of_text (__str__ order s) = Some (Sentence.init (Sentence.cells s) (Sentence.count s)) ∧
  Sentence.eqb (Sentence.init (Sentence.cells s) (Sentence.count s)) s = true.
Proof.
  intros Hp. unfold of_text. rewrite parse_sentence_str. split.
  - cbn. f_equal. f_equal. apply set_eq. intros x.
    by rewrite elem_of_list_to_set, Hp, elem_of_elements.
  - unfold Sentence.eqb. by apply bool_decide_eq_true.
Qed.

Lemma str_roundtrip_witness :
  [(1,0)%Z; (0,1)%Z] ≡ₚ elements (Sentence.cells (Sentence.init {[(0,1)%Z; (1,0)%Z]} 1)) ∧
  __str__ [(1,0)%Z; (0,1)%Z] (Sentence.init {[(0,1)%Z; (1,0)%Z]} 1) = "{(1, 0), (0, 1)} = 1" ∧
  of_text "{(1, 0), (0, 1)} = 1" = Some (Sentence.init {[(0,1)%Z; (1,0)%Z]} 1).
Proof.
  assert (Hp : [(1,0)%Z; (0,1)%Z] ≡ₚ elements (Sentence.cells (Sentence.init {[(0,1)%Z; (1,0)%Z]} 1)))
    by decide_prop.
  assert (Ht : __str__ [(1,0)%Z; (0,1)%Z] (Sentence.init {[(0,1)%Z; (1,0)%Z]} 1)
               = "{(1, 0), (0, 1)} = 1") by reflexivity.
  split_and!; [exact Hp|exact Ht|].
  rewrite <- Ht. exact (proj1 (str_roundtrip _ _ Hp)).
Defined.

Lemma best_sentence_stdout_go out K :
  foldl (fun out s => if decide (0 < ⟪Sentence.cells s⟫) then out else (out ++ [no_cells_msg])%list) out K =
  (out ++ replicate (length (filter (fun s => Sentence.cells s = ∅) K)) no_cells_msg)%list.
Proof.
  revert out. induction K as [|s K IH]; intros out; cbn [foldl]; [by rewrite app_nil_r|].
  rewrite IH, filter_cons. destruct (decide (Sentence.cells s = ∅)) as [Hs|Hs].
  - rewrite decide_False by (rewrite Hs, size_empty; lia). by rewrite <- app_assoc.
  - assert (⟪Sentence.cells s⟫ ≠ 0) by (intros E; apply Hs, leibniz_equiv, size_empty_iff, E).
    by rewrite decide_True by lia.
Qed.

(** The agent's [print] in [make_random_move] writes one line per sentence
    without cells that the clean-up loop left in [knowledge]. *)
Lemma make_random_move_stdout_alt ai :
  make_random_move_stdout ai =
    replicate (length (filter (fun s => Sentence.cells s = ∅) (remove_empty (knowledge ai)))) no_cells_msg.
Proof.
  unfold make_random_move_stdout, best_sentence_stdout. case_decide as HK.
  - by rewrite HK.
  - by rewrite best_sentence_stdout_go.
Qed.

(** C32: the message "All mines found!!" of [add_knowledge] tests
    [len(self.mines) == 8], not the board's number of mines.  Along a sound
    run it is printed only when the agent knows exactly 8 mines and the
    board has at least 8: on a board with fewer mines it never appears,
    even once every mine is known. *)
Theorem all_mines_found_needs_8 M ai cell count :
  Soundness.ai_sound M ai -> cell ∉ M ->
  count = Z.of_nat ⟪neighbours (height ai) (width ai) cell ∩ M⟫ ->
  add_knowledge_stdout ai cell count = [all_mines_found_msg] ->
  8 <= ⟪M⟫ ∧ ⟪mines (add_knowledge ai cell count)⟫ = 8.
Proof.
  intros Hs Hc Hn Ho. unfold add_knowledge_stdout in Ho. case_decide as H8; [|done].
  destruct (Soundness.sound_add_knowledge M ai cell count Hs Hc Hn) as (_ & Hm & _).
  split; [|done]. rewrite <- H8. by apply subseteq_size.
Qed.

(** A 3x3 board whose mines surround its centre: probing the centre reports
    8, the agent knows all 8 mines, and the message is printed. *)
Definition ring_mines : gset Cell := neighbours 3 3 (1,1)%Z.

Lemma all_mines_found_needs_8_witness :
  Soundness.ai_sound ring_mines (init 3 3 8) ∧ ((1,1)%Z ∉ ring_mines) ∧
  8%Z = Z.of_nat ⟪neighbours 3 3 (1,1)%Z ∩ ring_mines⟫ ∧
  add_knowledge_stdout (init 3 3 8) (1,1)%Z 8 = [all_mines_found_msg] ∧
  (8 <= ⟪ring_mines⟫ ∧ ⟪mines (add_knowledge (init 3 3 8) (1,1)%Z 8)⟫ = 8).
Proof.
  assert (H1 : Soundness.ai_sound ring_mines (init 3 3 8)) by decide_prop.
  assert (H2 : (1,1)%Z ∉ ring_mines) by decide_prop.
  assert (H3 : 8%Z = Z.of_nat ⟪neighbours 3 3 (1,1)%Z ∩ ring_mines⟫) by decide_prop.
  assert (H4 : add_knowledge_stdout (init 3 3 8) (1,1)%Z 8 = [all_mines_found_msg])
    by (vm_compute; reflexivity).
  exact (conj H1 (conj H2 (conj H3 (conj H4 (all_mines_found_needs_8 _ _ _ _ H1 H2 H3 H4))))).
Defined.

(** The 1x4 board of [Moves.ai_1x4] has one mine: after the first probe the
    agent knows it, and nothing is printed. *)
Example all_mines_found_missed :
  ⟪mines Moves.ai_1x4⟫ = 1 ∧ number_of_mines Moves.ai_1x4 = 1%Z ∧
  add_knowledge_stdout (init 1 4 1) (0,0)%Z 1 = [].
Proof. split_and!; vm_compute; reflexivity. Qed.

End Output.
