(* ===== verification/Game.v ===== *)
(** The driver loop, modelled from the spec.  The CS50 [runner.py] is not
    in the repository; spec sections 2 and 6 describe it:
    - ask the agent for a safe move, and for a random move when there is
      none;
    - reveal the chosen cell on the board;
    - a mine ends the game; otherwise pass [nearby_mines] of the cell to
      [add_knowledge].
    [step] is one such turn.  The agent's nondeterminism (the order of
    [set.pop()], the element [random.sample] draws) is a choice of the
    relation.  The theorems:
    - every state reachable from a fresh game keeps the agent sound with
      respect to the board's mines;
    - no sentence mentions a probed cell;
    - a safe move never reveals a mine. *)

From S2P Require Import Prelude Sentence Board AI Soundness Moves.
Open Scope minesweeper_scope.
Set Warnings "-clear-no-such-hyp".

Module Game.
Import MinesweeperAI Moves.

(** The driver's state: the board, the agent, and whether a mine was hit. *)
Record Game := mkGame {
  field : Minesweeper.Minesweeper;
  agent : MinesweeperAI;
  lost : bool
}.

(** A new game on board [b]: the agent knows the board's size and mine count. *)
Definition start (b : Minesweeper.Minesweeper) : Game :=
  mkGame b (MinesweeperAI.init (Minesweeper.height b) (Minesweeper.width b)
                               (Z.of_nat ⟪Minesweeper.mines b⟫)) false.

(** The move the driver asks for: a safe move, or else a random one.  The
    order of [set.pop()] depends on the hash table's history, not only on
    the set's elements, so each turn may use any lawful [pop]; and
    [random.sample] may draw any element [c] of the set [S]. *)
Inductive choose : MinesweeperAI -> MinesweeperAI -> Cell -> Prop :=
| choose_safe (pop : SetPop) (Hl : SetPopLaws) ai ai' c :
    make_safe_move ai = (Some c, ai') -> choose ai ai' c
| choose_random (pop : SetPop) (Hl : SetPopLaws) ai ai1 ai2 S c :
    make_safe_move ai = (None, ai1) -> make_random_move ai1 = (ai2, SampleFrom S) -> c ∈ S ->
    choose ai ai2 c.

(** Revealing [c] ([isMine], then [adjacentMineCount] and [observe]). *)
Definition reveal (g : Game) (ai : MinesweeperAI) (c : Cell) : Game :=
  if decide (c ∈ Minesweeper.mines (field g)) then mkGame (field g) ai true
  else mkGame (field g) (add_knowledge ai c (Z.of_nat (Minesweeper.nearby_mines (field g) c))) false.

(** One turn of a game that is not lost. *)
Inductive step : Game -> Game -> Prop :=
| step_turn g ai c : lost g = false -> choose (agent g) ai c -> step g (reveal g ai c).

(** The invariant of a game: a well-formed board, an agent of the same size,
    sound with respect to the board's mines, whose sentences avoid probed
    cells. *)
Definition game_inv (g : Game) : Prop :=
  Minesweeper.wf (field g) ∧
  height (agent g) = Minesweeper.height (field g) ∧ width (agent g) = Minesweeper.width (field g) ∧
  Soundness.ai_sound (Minesweeper.mines (field g)) (agent g) ∧ fresh (agent g).

#[global] Instance game_inv_dec g : Decision (game_inv g).
Proof. unfold game_inv. apply _. Defined.

(** ** Each part of a turn keeps the invariant *)

Lemma make_safe_move_fields `{Hlaws : SetPopLaws} ai :
  height (make_safe_move ai).2 = height ai ∧ width (make_safe_move ai).2 = width ai ∧
  moves_made (make_safe_move ai).2 = moves_made ai ∧ mines (make_safe_move ai).2 = mines ai ∧
  knowledge (make_safe_move ai).2 = knowledge ai ∧ safes (make_safe_move ai).2 ⊆ safes ai.
Proof.
  split_and!; try done. unfold make_safe_move. cbn [snd safes].
  pose proof (safe_move_loop_spec (S ⟪safes ai⟫) (moves_made ai) (safes ai) ltac:(lia)) as Hs.
  destruct (safe_move_loop _ _ _) as [[c|] ss]; simpl in *; [apply Hs|].
  destruct Hs as [_ ->]. apply empty_subseteq.
Qed.

Lemma make_random_move_fst ai :
  (make_random_move ai).1 =
  {| height := height ai; width := width ai; number_of_mines := number_of_mines ai;
     moves_made := moves_made ai; mines := mines ai; safes := safes ai;
     knowledge := remove_empty (knowledge ai) |}.
Proof. unfold make_random_move. cbn zeta. by repeat (case_decide || case_match). Qed.

(** Soundness and freshness only depend on [safes] through [safes ## M]. *)
Lemma ai_sound_shrink_safes M ai ai' :
  moves_made ai' = moves_made ai -> mines ai' = mines ai -> knowledge ai' = knowledge ai ->
  safes ai' ⊆ safes ai -> Soundness.ai_sound M ai -> fresh ai ->
  Soundness.ai_sound M ai' ∧ fresh ai'.
Proof.
  intros Hmm Hm HK Hs (HK0 & Hm0 & Hs0 & Hmm0) Hf. unfold Soundness.ai_sound, fresh in *.
  rewrite Hmm, Hm, HK. split_and!; try done. intros x Hx HM. exact (Hs0 x (Hs x Hx) HM).
Qed.

(** The agent's invariants survive choosing a move. *)
Lemma choose_preserves M ai ai' c :
  choose ai ai' c -> Soundness.ai_sound M ai -> fresh ai ->
  Soundness.ai_sound M ai' ∧ fresh ai' ∧ height ai' = height ai ∧ width ai' = width ai ∧
  safes ai' ⊆ safes ai.
Proof.
  intros Hc Hs Hf.
  destruct Hc as [pop Hl ai ai' c Hsafe|pop Hl ai ai1 ai2 S c Hsafe Hrand _];
    pose proof (@make_safe_move_fields pop Hl ai) as (Hh & Hw & Hmm' & Hm' & HK' & Hs');
    rewrite Hsafe in Hh, Hw, Hmm', Hm', HK', Hs'; simpl in Hh, Hw, Hmm', Hm', HK', Hs'.
  - destruct (ai_sound_shrink_safes M ai ai') as [Hs1 Hf1]; done.
  - destruct (ai_sound_shrink_safes M ai ai1) as [(HK1 & Hm1 & Hs1 & Hmm1) Hf1]; try done.
    pose proof (make_random_move_fst ai1) as Hr. rewrite Hrand in Hr; simpl in Hr. subst ai2.
    unfold Soundness.ai_sound, fresh in *; simpl. split_and!; try done.
    + by apply Forall_remove_empty.
    + by apply (Forall_remove_empty (fun s => Sentence.cells s ## moves_made ai1)).
Qed.

Lemma game_inv_start b : Minesweeper.wf b -> game_inv (start b).
Proof.
  intros Hwf. split_and!; [done|done|done|apply Soundness.init_sound|constructor].
Qed.

Lemma step_preserves g g' : step g g' -> game_inv g -> game_inv g'.
Proof.
  intros [g0 ai c _ Hc] (Hwf & Hh & Hw & Hs & Hf).
  destruct (choose_preserves _ _ _ _ Hc Hs Hf) as (Hs' & Hf' & Hh' & Hw' & _).
  unfold reveal. case_decide as Hm; [by split_and!; simpl; try congruence|].
  split_and!; simpl; try done; try congruence.
  - apply Soundness.sound_add_knowledge; [done|done|].
    rewrite Minesweeper.nearby_mines_count by done. by rewrite Hh', Hw', Hh, Hw.
  - by apply fresh_add_knowledge.
Qed.

Lemma reachable_game_inv b g :
  Minesweeper.wf b -> rtc step (start b) g -> game_inv g.
Proof. intros Hwf. apply rtc_inv; [intros x y Hx Hs; by apply (step_preserves x)|by apply game_inv_start]. Qed.

(** A turn never changes the board. *)
Lemma step_field g g' : step g g' -> field g' = field g.
Proof. intros [g0 ai c _ _]. unfold reveal. by case_decide. Qed.

Lemma reachable_field b g : rtc step (start b) g -> field g = b.
Proof. apply (rtc_inv step (fun g => field g = b)); [|done]. intros x y <-. apply step_field. Qed.

(** C1: in every game reachable from a new game on a well-formed board, the
    agent is sound with respect to the board's mines: its sentences are
    true, its [mines] are mines, its [safes] and [moves_made] are not, and
    no sentence mentions a probed cell. *)
Theorem reachable_sound b g :
  Minesweeper.wf b -> rtc step (start b) g ->
  Soundness.ai_sound (Minesweeper.mines b) (agent g) ∧ fresh (agent g).
Proof.
  intros Hwf Hr. destruct (reachable_game_inv b g Hwf Hr) as (_ & _ & _ & Hs & Hf).
  by rewrite <- (reachable_field b g Hr).
Qed.

Section SafeMove.
Context `{Hlaws : SetPopLaws}.

(** C2: in every game reachable from a new game on a well-formed board, a safe
    move never loses: revealing the cell [make_safe_move] returns never hits
    a mine. *)
Theorem safe_move_never_loses b g c ai' :
  Minesweeper.wf b -> rtc step (start b) g -> make_safe_move (agent g) = (Some c, ai') ->
  (c ∉ Minesweeper.mines b) ∧ lost (reveal g ai' c) = false.
Proof.
  intros Hwf Hr Hsafe. destruct (reachable_game_inv b g Hwf Hr) as (_ & _ & _ & (_ & _ & Hs & _) & _).
  destruct (make_safe_move_some _ _ _ Hsafe) as [Hin _]. rewrite <- (reachable_field b g Hr) in *.
  assert (Hnm : c ∉ Minesweeper.mines (field g)) by (intros Hm; exact (Hs c Hin Hm)).
  split; [done|]. unfold reveal. by rewrite decide_False.
Qed.

End SafeMove.

(** ** Witnesses: one turn on a 1x5 board whose mine is at (0,4) *)

Definition board_1x5 : Minesweeper.Minesweeper :=
  {| Minesweeper.height := 1; Minesweeper.width := 5; Minesweeper.mines := {[(0,4)%Z]};
     Minesweeper.board := [[false; false; false; false; true]]; Minesweeper.mines_found := ∅ |}.

(** No safe move yet; the random move draws from the whole board and
    reveals (0,0). *)
Definition first_pick : MinesweeperAI := (make_safe_move (agent (start board_1x5))).2.
Definition turn1 : Game :=
  reveal (start board_1x5) (make_random_move first_pick).1 (0,0)%Z.

Lemma turn1_step : step (start board_1x5) turn1.
Proof.
  apply step_turn; [reflexivity|].
  apply (choose_random head_pop head_pop_laws _ first_pick _ (random_cells first_pick)).
  - vm_compute. reflexivity.
  - vm_compute. reflexivity.
  - decide_prop.
Qed.

Lemma turn1_reachable : rtc step (start board_1x5) turn1.
Proof. apply rtc_once, turn1_step. Qed.

Lemma reachable_sound_witness :
  Minesweeper.wf board_1x5 ∧ rtc step (start board_1x5) turn1 ∧
  (Soundness.ai_sound (Minesweeper.mines board_1x5) (agent turn1) ∧ fresh (agent turn1)).
Proof.
  assert (Hwf : Minesweeper.wf board_1x5) by decide_prop.
  exact (conj Hwf (conj turn1_reachable (reachable_sound board_1x5 turn1 Hwf turn1_reachable))).
Defined.

Lemma safe_move_never_loses_witness :
  @SetPopLaws head_pop ∧ Minesweeper.wf board_1x5 ∧ rtc step (start board_1x5) turn1 ∧
  make_safe_move (agent turn1) = (Some (0,1)%Z, (make_safe_move (agent turn1)).2) ∧
  (((0,1)%Z ∉ Minesweeper.mines board_1x5) ∧
   lost (reveal turn1 (make_safe_move (agent turn1)).2 (0,1)%Z) = false).
Proof.
  assert (Hwf : Minesweeper.wf board_1x5) by decide_prop.
  assert (Hs : make_safe_move (agent turn1) = (Some (0,1)%Z, (make_safe_move (agent turn1)).2))
    by (vm_compute; reflexivity).
  exact (conj head_pop_laws (conj Hwf (conj turn1_reachable (conj Hs
           (@safe_move_never_loses head_pop head_pop_laws board_1x5 turn1 _ _ Hwf turn1_reachable Hs))))).
Defined.

End Game.
