(* ===== verification/Findings.v ===== *)
(** Concrete runs of the model that exhibit where [add_knowledge] departs
    from what the spec asks of the inference engine.  Each theorem
    evaluates the model on a small board and checks that the reported
    counts are the board's own.
    - Duplicate sentences: the duplicate check runs before the probed cell
      is removed from the old sentences, so two equal sentences can remain
      in [knowledge].
    - Empty sentence left behind: the clean-up loop removes entries from
      the list it iterates, which skips the entry after each removal
      ([MinesweeperAI.remove_empty_keeps_empty] characterises when).
    - No fixed point: subset resolution runs once, over a snapshot of the
      list, so a sentence it derives is never resolved in the same call.
      A further safe cell stays unconcluded.
    - [make_random_move] raises:
      - [ZeroDivisionError] when the best sentence covers every unknown cell;
      - [KeyError] when the best sentence contains a known mine;
      - [ValueError] when no unknown cell is left.
      It can also offer a known mine as its guess.
    - [Sentence.mark_mine] records a cell outside the sentence as one of
      its mines. *)

From S2P Require Import Prelude Sentence Board AI Soundness Moves.
Open Scope minesweeper_scope.
Set Warnings "-clear-no-such-hyp".

Module Findings.
Import MinesweeperAI.

(** ** Duplicate sentences (2x2 board, one mine at (0,0)) *)

Definition dup_sentence : Sentence.Sentence := Sentence.init {[(0,0)%Z; (1,0)%Z]} 1.

(** probing (1,1) and then (0,1) of a 2x2 board whose only mine is at
    (0,0), with the counts the board reports, leaves the same sentence twice
    in [knowledge]. *)
Theorem add_knowledge_duplicates :
  Minesweeper.nearby_mines Minesweeper.board_2x2 (1,1)%Z = 1 ∧
  Minesweeper.nearby_mines Minesweeper.board_2x2 (0,1)%Z = 1 ∧
  knowledge (add_knowledge ai_2x2 (0,1)%Z 1) = [dup_sentence; dup_sentence].
Proof. split_and!; vm_compute; reflexivity. Qed.

(** ** An empty sentence survives the clean-up loop *)

(** A 1x2 board without mines: probe (0,0), then (0,1). *)
Definition ai_1x2 : MinesweeperAI :=
  add_knowledge (add_knowledge (init 1 2 0) (0,0)%Z 0) (0,1)%Z 0.

(** in a real game the empty sentence stays in [knowledge]: on a 1x2
    board without mines, after both cells are probed, the knowledge base is
    one sentence with no cells. *)
Theorem add_knowledge_keeps_empty :
  knowledge ai_1x2 = [Sentence.init ∅ 0].
Proof. vm_compute. reflexivity. Qed.

(** ** One pass of resolution is not a fixed point (1x8 board) *)

(** Mines at (0,1) and (0,3).  Three true sentences:
    - {1,2} = 1;
    - {1,2,3,4} = 2;
    - {3,4,5} = 1. *)
Definition fp_mines : gset Cell := {[(0,1)%Z; (0,3)%Z]}.

Definition ai_fp : MinesweeperAI :=
  {| height := 1; width := 8; number_of_mines := 2; moves_made := ∅; mines := ∅; safes := ∅;
     knowledge := [Sentence.init {[(0,1)%Z; (0,2)%Z]} 1;
                   Sentence.init {[(0,1)%Z; (0,2)%Z; (0,3)%Z; (0,4)%Z]} 2;
                   Sentence.init {[(0,3)%Z; (0,4)%Z; (0,5)%Z]} 1] |}.

(** [add_knowledge] stops short of the fixed point that the spec's step 4
    demands.  The state [ai_fp] is sound.  Probing (0,7), whose count is 0,
    derives {3,4} = 1 but never resolves it against {3,4,5} = 1.  So (0,5)
    is not in [safes], although one more round of subset resolution on the
    resulting knowledge derives {5} = 0. *)
Theorem add_knowledge_not_fixed_point :
  Soundness.ai_sound fp_mines ai_fp ∧
  Z.of_nat ⟪neighbours 1 8 (0,7)%Z ∩ fp_mines⟫ = 0%Z ∧
  ((0,5)%Z ∉ safes (add_knowledge ai_fp (0,7)%Z 0)) ∧
  Sentence.init {[(0,5)%Z]} 0 ∈ subset_resolution (knowledge (add_knowledge ai_fp (0,7)%Z 0)).
Proof. split_and!; decide_prop. Qed.

(** ** [make_random_move] crashes *)

(** The agent after the driver's first reveal, of (1,1), on the 2x2 board
    whose only mine is at (0,0): it is told the count the board reports. *)
Definition first_reveal_2x2 : MinesweeperAI :=
  add_knowledge (init 2 2 1) (1,1)%Z (Z.of_nat (Minesweeper.nearby_mines Minesweeper.board_2x2 (1,1)%Z)).

(** on the 2x2 board with one mine at (0,0), after the first reveal at
    (1,1) there is no safe move, and [make_random_move] raises
    [ZeroDivisionError]: the best sentence covers all three unknown cells,
    so [len(random_cells) - len(calculated_sentence.cells)] is 0. *)
Theorem random_move_zero_division :
  (Moves.make_safe_move first_reveal_2x2).1 = None ∧
  (Moves.make_random_move first_reveal_2x2).2 = Moves.Raise Moves.ZeroDivisionError.
Proof. split; vm_compute; reflexivity. Qed.

(** A 1x4 board with its mine at (0,1). *)
Definition board_1x4 : Minesweeper.Minesweeper :=
  {| Minesweeper.height := 1; Minesweeper.width := 4; Minesweeper.mines := {[(0,1)%Z]};
     Minesweeper.board := [[false; true; false; false]]; Minesweeper.mines_found := ∅ |}.

(** on a 1x4 board whose mine is at (0,1), the first probe at (0,0)
    reports 1 and makes (0,1) a known mine.  There is no safe move, and
    [make_random_move] raises [KeyError]: it removes the best sentence's
    cells from [random_cells], which excludes known mines. *)
Theorem random_move_key_error :
  Minesweeper.wf board_1x4 ∧ Minesweeper.nearby_mines board_1x4 (0,0)%Z = 1 ∧
  (Moves.make_safe_move Moves.ai_1x4).1 = None ∧
  (Moves.make_random_move Moves.ai_1x4).2 = Moves.Raise Moves.KeyError.
Proof. split_and!; [decide_prop|vm_compute; reflexivity..]. Qed.

Definition ai_1x1 : MinesweeperAI := add_knowledge (init 1 1 0) (0,0)%Z 0.

(** on a 1x1 board without mines, once the only cell is probed no cell is
    unknown, and [make_random_move] raises [ValueError] (an empty
    [random.sample]) instead of returning [None] as the spec requires. *)
Theorem random_move_value_error :
  Moves.random_cells ai_1x1 = ∅ ∧
  (Moves.make_random_move ai_1x1).2 = Moves.Raise Moves.ValueError.
Proof. split; vm_compute; reflexivity. Qed.

(** ** [make_random_move] can offer a known mine *)

(** Mines at (0,0), (0,1) and (0,4) of a 1x7 board.  (0,6) is probed, and
    (0,0) and (0,1) are known mines.  The sentences {0,2,3} = 1 and
    {0,1} = 2 still mention the known mine (0,0). *)
Definition guess_mines : gset Cell := {[(0,0)%Z; (0,1)%Z; (0,4)%Z]}.

Definition ai_guess : MinesweeperAI :=
  {| height := 1; width := 7; number_of_mines := 3; moves_made := {[(0,6)%Z]};
     mines := {[(0,0)%Z; (0,1)%Z]}; safes := ∅;
     knowledge := [Sentence.init {[(0,0)%Z; (0,2)%Z; (0,3)%Z]} 1;
                   Sentence.init {[(0,0)%Z; (0,1)%Z]} 2] |}.

(** from a sound state in which no sentence mentions a probed cell,
    [make_random_move] draws its guess from the cells of the sentence
    {0,2,3} = 1, which contains the known mine (0,0).  The guess can be a
    known mine, although the spec says makeGuessMove never returns one. *)
Theorem random_move_known_mine :
  Soundness.ai_sound guess_mines ai_guess ∧ fresh ai_guess ∧
  (Moves.make_random_move ai_guess).2 = Moves.SampleFrom {[(0,0)%Z; (0,2)%Z; (0,3)%Z]} ∧
  (0,0)%Z ∈ mines ai_guess.
Proof. split_and!; [decide_prop|decide_prop|vm_compute; reflexivity|decide_prop]. Qed.

(** ** [Sentence.mark_mine] records cells outside the sentence *)

(** A conclusive sentence: its one cell is a mine. *)
Definition conclusive_sentence : Sentence.Sentence := Sentence.init {[(0,0)%Z]} 1.

(** [Sentence.mark_mine] only tests [len(self.cells) == self.count], so
    marking a cell that is not in a conclusive sentence still adds it to
    the sentence's [known_mines].  The spec's [impliedMines] is a subset of
    the constraint's cells. *)
Theorem mark_mine_foreign_cell :
  ((0,5)%Z ∉ Sentence.cells conclusive_sentence) ∧
  (0,5)%Z ∈ Sentence.known_mines (Sentence.mark_mine conclusive_sentence (0,5)%Z) ∧
  (0,5)%Z ∈ Sentence.known_mines (Sentence.mark_cells (Sentence.mark_mine conclusive_sentence (0,5)%Z)).
Proof. split_and!; decide_prop. Qed.

End Findings.
