(* ===== verification/Play.v ===== *)
(** The rules of Minesweeper as an abstract transition system, and the
    driver of [Game] as a refinement of them.

    A play of Minesweeper on an [h] by [w] board with mines [M] only
    records which cells are revealed and whether a mine went off
    ([Play]).  A turn ([astep]) reveals one unrevealed cell of the board.
    A safe cell joins the revealed ones; a mine ends the play.  Every play
    of the rules is finite, and lasts at most [h * w] turns.

    [abs] maps a [Game.Game] to a [Play]: the agent's [moves_made] are the
    revealed cells and [lost] is the explosion.  [step_refines] shows that
    every turn of the driver is a turn of the rules.  The moves the agent
    proposes are therefore cells of the board that were not probed, for
    any order of [set.pop()] and any draw of [random.sample].  The
    refinement needs the invariant [Bounds.bounded] of the agent on top of
    [Game.game_inv].  By the simulation lemmas of [Prelude], the driver
    inherits the termination and the turn bound of the rules. *)

From S2P Require Import Prelude Sentence Board AI Bounds Soundness Moves Game.
Open Scope minesweeper_scope.
Set Warnings "-clear-no-such-hyp".

Module Play.
Import MinesweeperAI Moves Game Bounds.

(** ** The rules *)

Record Play := mkPlay {
  revealed : gset Cell;
  exploded : bool
}.

Section Rules.
Context (h w : Z) (M : gset Cell).

(** One turn: reveal a cell of the board that is not yet revealed. *)
Inductive astep : Play -> Play -> Prop :=
| astep_safe R c :
    in_bounds h w c -> c ∉ R -> c ∉ M -> astep (mkPlay R false) (mkPlay ({[c]} ∪ R) false)
| astep_mine R c :
    in_bounds h w c -> c ∉ R -> c ∈ M -> astep (mkPlay R false) (mkPlay R true).

(** The cells of the board, as a set. *)
Definition board_cells : gset Cell := list_to_set (all_cells h w).

(** Turns taken so far: one per revealed cell, and one for the explosion. *)
Definition turns (p : Play) : nat := ⟪revealed p⟫ + (if exploded p then 1 else 0).

(** A play reveals only cells of the board, and has a turn left for every
    remaining cell. *)
Definition play_ok (p : Play) : Prop := revealed p ⊆ board_cells ∧ turns p <= ⟪board_cells⟫.

Lemma elem_of_board_cells c : c ∈ board_cells <-> in_bounds h w c.
Proof. unfold board_cells. by rewrite elem_of_list_to_set, all_cells_spec. Qed.

Lemma size_board_cells : ⟪board_cells⟫ = Z.to_nat h * Z.to_nat w.
Proof. unfold board_cells. by rewrite size_list_to_set, length_all_cells by apply NoDup_all_cells. Qed.

(** Revealing one more cell of the board leaves room for it. *)
Lemma size_reveal R c :
  R ⊆ board_cells -> in_bounds h w c -> c ∉ R ->
  ⟪{[c]} ∪ R⟫ = S ⟪R⟫ ∧ ⟪{[c]} ∪ R⟫ <= ⟪board_cells⟫ ∧ {[c]} ∪ R ⊆ board_cells.
Proof.
  intros HR Hc HcR. apply elem_of_board_cells in Hc.
  assert (Hsz : ⟪{[c]} ∪ R⟫ = S ⟪R⟫) by (rewrite size_union, size_singleton; set_solver).
  assert (Hsub : {[c]} ∪ R ⊆ board_cells) by set_solver.
  split_and!; [done|by apply subseteq_size|done].
Qed.

Lemma astep_turns p p' : astep p p' -> turns p' = S (turns p).
Proof.
  intros [R c Hc HcR _|R c Hc HcR _]; unfold turns; simpl; [|lia].
  rewrite size_union, size_singleton; [lia|set_solver].
Qed.

Lemma astep_ok p p' : play_ok p -> astep p p' -> play_ok p'.
Proof.
  intros [HR Ht] Hs. pose proof (astep_turns p p' Hs) as Ht'.
  destruct Hs as [R c Hc HcR _|R c Hc HcR _]; simpl in *;
    destruct (size_reveal R c HR Hc HcR) as (Hsz & Hle & Hsub); split; try done.
  - unfold turns in *; simpl in *. lia.
  - unfold turns in *; simpl in *. lia.
Qed.

(** Each turn takes one of the at most [h * w] turns a play has. *)
Lemma nsteps_astep_turns n p p' :
  play_ok p -> nsteps astep n p p' -> turns p' = turns p + n ∧ play_ok p'.
Proof.
  intros Hok Hs. induction Hs as [p|n p p1 p' Hstep _ IH]; [split; [lia|done]|].
  destruct (IH (astep_ok p p1 Hok Hstep)) as [Ht Hok']. rewrite (astep_turns p p1 Hstep) in Ht.
  split; [lia|done].
Qed.

(** Every play that follows the rules ends. *)
Lemma astep_sn p : play_ok p -> sn astep p.
Proof.
  apply (sn_measure_inv astep play_ok (fun p => ⟪board_cells⟫ - turns p)).
  intros x y Hok Hs. pose proof (astep_ok x y Hok Hs) as Hok'. split; [done|].
  destruct Hok' as [_ Hle]. cbn beta. rewrite (astep_turns x y Hs) in Hle |- *. lia.
Qed.
End Rules.


(** ** The driver refines the rules *)

(** The agent's probed cells are the revealed ones. *)
Definition abs (g : Game) : Play := mkPlay (moves_made (agent g)) (lost g).

(** The invariant of the driver: [game_inv] and an agent on its board. *)
Definition play_inv (g : Game) : Prop := game_inv g ∧ bounded (agent g).

#[global] Instance play_inv_dec g : Decision (play_inv g).
Proof. unfold play_inv. apply _. Defined.

(** A chosen move is a cell of the board that was not probed, and the
    agent stays on its board. *)
Lemma choose_bounded ai ai' c :
  bounded ai -> fresh ai -> choose ai ai' c ->
  in_bounds (height ai) (width ai) c ∧ (c ∉ moves_made ai) ∧ bounded ai' ∧
  moves_made ai' = moves_made ai.
Proof.
  intros (Hmm & Hm & Hs & HK) Hf Hc. unfold bounded.
  destruct Hc as [pop Hl ai ai' c Hsafe|pop Hl ai ai1 ai2 S c Hsafe Hrand Hc];
    pose proof (@make_safe_move_fields pop Hl ai) as (Hh & Hw & Hmm' & Hm' & HK' & Hs');
    rewrite Hsafe in Hh, Hw, Hmm', Hm', HK', Hs'; simpl in Hh, Hw, Hmm', Hm', HK', Hs'.
  - destruct (@make_safe_move_some pop Hl ai c ai' Hsafe) as [Hcs Hcm].
    rewrite Hh, Hw, Hmm', Hm', HK'. split_and!; try done; [by apply Hs|].
    by apply (on_board_subseteq _ _ _ (safes ai)).
  - assert (Hcase : c ∈ random_cells ai1 ∨ ∃ b, b ∈ remove_empty (knowledge ai1) ∧ c ∈ Sentence.cells b)
      by (apply (make_random_move_sample ai1 S c); [by rewrite Hrand|done]).
    pose proof (make_random_move_fst ai1) as Hr. rewrite Hrand in Hr; simpl in Hr. subst ai2. simpl.
    rewrite random_cells_spec, Hh, Hw, Hmm', Hm', HK' in *.
    assert (HKr : Forall (fun s => sentence_on_board (height ai) (width ai) s ∧
                                   Sentence.cells s ## moves_made ai) (remove_empty (knowledge ai)))
      by (apply Forall_remove_empty, Forall_and; split; [done|exact Hf]).
    rewrite Forall_forall in HKr.
    split_and!; try done.
    + destruct Hcase as [Hrc|(b & Hb & Hcb)]; [tauto|]. destruct (HKr b Hb) as [(Hb1 & _) _]. by apply Hb1.
    + destruct Hcase as [Hrc|(b & Hb & Hcb)]; [tauto|]. destruct (HKr b Hb) as [_ Hb2]. intros Hm0. exact (Hb2 c Hcb Hm0).
    + by apply (on_board_subseteq _ _ _ (safes ai)).
    + apply Forall_forall. intros s Hs0. by apply HKr.
Qed.

Lemma play_inv_step g g' : play_inv g -> step g g' -> play_inv g'.
Proof.
  intros [Hg Hb] Hs. split; [by apply (step_preserves g)|].
  destruct Hs as [g0 ai c _ Hc]. destruct Hg as (_ & _ & _ & Hsnd & Hf).
  destruct (choose_bounded _ _ _ Hb Hf Hc) as (Hin & _ & Hb' & _).
  destruct (choose_preserves _ _ _ _ Hc Hsnd Hf) as (_ & _ & Hh & Hw & _).
  unfold reveal. case_decide; [done|]. simpl.
  apply bounded_add_knowledge; [done|]. by rewrite Hh, Hw.
Qed.

(** Every turn of the driver is a turn of the rules on its board. *)
Lemma simulation_step g g' :
  play_inv g -> step g g' ->
  astep (Minesweeper.height (field g)) (Minesweeper.width (field g)) (Minesweeper.mines (field g))
        (abs g) (abs g').
Proof.
  intros [(_ & Hh & Hw & Hsnd & Hf) Hb] Hs. destruct Hs as [g0 ai c Hl Hc].
  destruct (choose_bounded _ _ _ Hb Hf Hc) as (Hin & Hcm & _ & Hmm).
  rewrite Hh, Hw in Hin. unfold abs, reveal. rewrite Hl.
  case_decide as Hm; simpl; rewrite Hmm.
  - by apply (astep_mine _ _ _ _ c).
  - by apply astep_safe.
Qed.

Lemma reachable_play_inv b g : Minesweeper.wf b -> rtc step (start b) g -> play_inv g ∧ field g = b.
Proof.
  intros Hwf. apply (rtc_inv step (fun g => play_inv g ∧ field g = b)).
  - intros x y [Hx Hfx] Hs. split; [by apply (play_inv_step x)|]. by rewrite (step_field x y Hs).
  - split; [|done]. split; [by apply game_inv_start|]. split_and!; [apply on_board_empty..|constructor].
Qed.

Lemma start_play_ok b :
  play_ok (Minesweeper.height b) (Minesweeper.width b) (abs (start b)).
Proof.
  split; [apply empty_subseteq|]. unfold turns.
  cbn [abs start revealed exploded agent lost MinesweeperAI.init moves_made]. rewrite size_empty. lia.
Qed.

(** The two hypotheses of the simulation lemmas for the games on board [b]. *)
Lemma driver_inv_step b x y : play_inv x ∧ field x = b -> step x y -> play_inv y ∧ field y = b.
Proof. intros [Hx Hfx] Hs. split; [by apply (play_inv_step x)|]. by rewrite (step_field x y Hs). Qed.

Lemma driver_simulation b x y :
  play_inv x ∧ field x = b -> step x y ->
  astep (Minesweeper.height b) (Minesweeper.width b) (Minesweeper.mines b) (abs x) (abs y).
Proof. intros [Hx <-] Hs. by apply simulation_step. Qed.

(** The abstract play of a reachable game follows the rules from the start. *)
Lemma reachable_play_ok b g :
  Minesweeper.wf b -> rtc step (start b) g ->
  play_ok (Minesweeper.height b) (Minesweeper.width b) (abs g).
Proof.
  intros Hwf Hr. apply rtc_nsteps_1 in Hr as [n Hs].
  apply (nsteps_simulation step (astep (Minesweeper.height b) (Minesweeper.width b) (Minesweeper.mines b))
           (fun g => play_inv g ∧ field g = b) abs) in Hs.
  - by apply nsteps_astep_turns in Hs as [_ Hok]; [|apply start_play_ok].
  - apply driver_inv_step.
  - apply driver_simulation.
  - by apply reachable_play_inv.
Qed.

(** C3: the driver refines the rules.  In every game reachable from a new
    game on a well-formed board, each turn of the driver reveals one cell
    of the board that was not revealed before.  A safe cell is added to
    the revealed cells; a mine ends the game. *)
Theorem step_refines b g g' :
  Minesweeper.wf b -> rtc step (start b) g -> step g g' ->
  astep (Minesweeper.height b) (Minesweeper.width b) (Minesweeper.mines b) (abs g) (abs g').
Proof.
  intros Hwf Hr Hs. destruct (reachable_play_inv b g Hwf Hr) as [Hinv <-].
  by apply simulation_step.
Qed.

(** The variant of the driver: turns left on the board. *)
Definition variant (b : Minesweeper.Minesweeper) (g : Game) : nat :=
  ⟪board_cells (Minesweeper.height b) (Minesweeper.width b)⟫ - turns (abs g).

(** C4: every game on a well-formed board ends: the driver has no infinite
    run, whatever cells [set.pop()] and [random.sample] pick.  The
    variant, the turns left on the board, decreases at every turn of a
    reachable game. *)
Theorem game_terminates b :
  Minesweeper.wf b ->
  sn step (start b) ∧
  ∀ g g', rtc step (start b) g -> step g g' -> variant b g' < variant b g.
Proof.
  intros Hwf. split.
  - apply (sn_simulation step (astep (Minesweeper.height b) (Minesweeper.width b) (Minesweeper.mines b))
             (fun g => play_inv g ∧ field g = b) abs).
    + apply driver_inv_step.
    + apply driver_simulation.
    + by apply reachable_play_inv.
    + apply astep_sn, start_play_ok.
  - intros g g' Hr Hs. destruct (reachable_play_inv b g Hwf Hr) as [Hinv Hf].
    pose proof (simulation_step g g' Hinv Hs) as Ha. rewrite Hf in Ha.
    destruct (astep_ok _ _ _ _ _ (reachable_play_ok b g Hwf Hr) Ha) as [_ Hle].
    unfold variant. rewrite (astep_turns _ _ _ _ _ Ha) in Hle |- *. lia.
Qed.

(** C11: after [n] turns of the driver, [n] is the number of revealed cells
    plus one if a mine went off, and a game on an [h] by [w] board lasts at
    most [h * w] turns. *)
Theorem game_turns_bound b n g :
  Minesweeper.wf b -> nsteps step n (start b) g ->
  n = turns (abs g) ∧ n <= Z.to_nat (Minesweeper.height b) * Z.to_nat (Minesweeper.width b).
Proof.
  intros Hwf Hs.
  apply (nsteps_simulation step (astep (Minesweeper.height b) (Minesweeper.width b) (Minesweeper.mines b))
           (fun g => play_inv g ∧ field g = b) abs) in Hs.
  - apply nsteps_astep_turns in Hs as [Ht [_ Hle]]; [|apply start_play_ok].
    rewrite <- size_board_cells. rewrite Ht in Hle |- *. unfold turns at 1.
    cbn [abs start revealed exploded agent lost MinesweeperAI.init moves_made].
    rewrite size_empty. lia.
  - apply driver_inv_step.
  - apply driver_simulation.
  - by apply reachable_play_inv.
Qed.

(** C12: in every game reachable from a new game on a well-formed board, the
    move the driver takes from the agent, safe or random, is a cell of the
    board that was not revealed (probed) before. *)
Theorem reachable_move_on_board b g ai' c :
  Minesweeper.wf b -> rtc step (start b) g -> choose (agent g) ai' c ->
  c ∈ board_cells (Minesweeper.height b) (Minesweeper.width b) ∖ revealed (abs g).
Proof.
  intros Hwf Hr Hc. destruct (reachable_play_inv b g Hwf Hr) as [[(_ & Hh & Hw & _ & Hf) Hb] <-].
  destruct (choose_bounded _ _ _ Hb Hf Hc) as (Hin & Hcm & _).
  apply elem_of_difference. rewrite elem_of_board_cells, <- Hh, <- Hw. by split.
Qed.
(** ** Witnesses: the second turn on the 1x5 board of [Game] is the safe
    move (0,1) *)

Definition turn2 : Game := reveal turn1 (make_safe_move (agent turn1)).2 (0,1)%Z.

Lemma turn2_choose : choose (agent turn1) (make_safe_move (agent turn1)).2 (0,1)%Z.
Proof. apply (choose_safe head_pop head_pop_laws). vm_compute. reflexivity. Qed.

Lemma turn2_step : step turn1 turn2.
Proof. apply step_turn; [vm_compute; reflexivity|apply turn2_choose]. Qed.

Lemma step_refines_witness :
  Minesweeper.wf board_1x5 ∧ rtc step (start board_1x5) turn1 ∧
  step turn1 turn2 ∧
  astep (Minesweeper.height board_1x5) (Minesweeper.width board_1x5) (Minesweeper.mines board_1x5)
        (abs turn1) (abs turn2).
Proof.
  assert (Hwf : Minesweeper.wf board_1x5) by decide_prop.
  exact (conj Hwf (conj turn1_reachable (conj turn2_step
           (step_refines board_1x5 turn1 turn2 Hwf turn1_reachable turn2_step)))).
Defined.

Lemma game_terminates_witness :
  Minesweeper.wf board_1x5 ∧
  (sn step (start board_1x5) ∧
   ∀ g g', rtc step (start board_1x5) g -> step g g' -> variant board_1x5 g' < variant board_1x5 g).
Proof.
  assert (Hwf : Minesweeper.wf board_1x5) by decide_prop.
  exact (conj Hwf (game_terminates board_1x5 Hwf)).
Defined.

Lemma game_turns_bound_witness :
  Minesweeper.wf board_1x5 ∧ nsteps step 2 (start board_1x5) turn2 ∧
  (2 = turns (abs turn2) ∧
   2 <= Z.to_nat (Minesweeper.height board_1x5) * Z.to_nat (Minesweeper.width board_1x5)).
Proof.
  assert (Hwf : Minesweeper.wf board_1x5) by decide_prop.
  assert (Hs : nsteps step 2 (start board_1x5) turn2)
    by (eapply nsteps_l; [apply turn1_step|apply nsteps_once, turn2_step]).
  exact (conj Hwf (conj Hs (game_turns_bound board_1x5 2 turn2 Hwf Hs))).
Defined.

Lemma reachable_move_on_board_witness :
  Minesweeper.wf board_1x5 ∧ rtc step (start board_1x5) turn1 ∧
  choose (agent turn1) (make_safe_move (agent turn1)).2 (0,1)%Z ∧
  (0,1)%Z ∈ board_cells (Minesweeper.height board_1x5) (Minesweeper.width board_1x5) ∖
             revealed (abs turn1).
Proof.
  assert (Hwf : Minesweeper.wf board_1x5) by decide_prop.
  exact (conj Hwf (conj turn1_reachable (conj turn2_choose
           (reachable_move_on_board board_1x5 turn1 _ _ Hwf turn1_reachable turn2_choose)))).
Defined.

End Play.
